(** * Verification of the PDF batch-extraction pipeline of [src/App.tsx]

    The development is a shallow embedding of the state and of the event
    handlers of the [App] component: the file queue, the batch state, the
    history list, and the handlers [handleFiles], [removeFile],
    [processBatch], [resetState], [handleExportAll], [updateHistory] and
    [clearHistory].  The two external services (pdf.js and the text
    recognition API) and the browser's [localStorage] are modelled as
    oracles whose answers are parameters of the run. *)

From Stdlib Require Import List Bool Arith ZArith NArith Lia.
From Stdlib Require Import Ascii String DecimalString.
Import ListNotations.

Set Implicit Arguments.

(* ================================================================= *)
(** ** JavaScript strings *)

(** A JavaScript string is a sequence of UTF-16 code units. *)
Module JS.

Definition str := list N.

Definition eq_dec : forall a b : str, {a = b} + {a <> b} :=
  list_eq_dec N.eq_dec.

Definition eqb (a b : str) : bool := if eq_dec a b then true else false.

(** Literals of the source are written as Rocq strings, whose bytes are
    the UTF-8 encoding of the text; [utf16] decodes them to code units. *)
Fixpoint utf16_of_bytes (bs : list N) : str :=
  match bs with
  | [] => []
  | b0 :: r =>
      if (b0 <? 128)%N then b0 :: utf16_of_bytes r
      else if (b0 <? 224)%N then
        match r with
        | b1 :: r1 =>
            N.lor (N.shiftl (N.land b0 31) 6) (N.land b1 63)
              :: utf16_of_bytes r1
        | [] => [65533%N]
        end
      else if (b0 <? 240)%N then
        match r with
        | b1 :: b2 :: r2 =>
            N.lor (N.shiftl (N.land b0 15) 12)
              (N.lor (N.shiftl (N.land b1 63) 6) (N.land b2 63))
              :: utf16_of_bytes r2
        | _ => [65533%N]
        end
      else
        match r with
        | b1 :: b2 :: b3 :: r3 =>
            let cp :=
              N.lor (N.shiftl (N.land b0 7) 18)
                (N.lor (N.shiftl (N.land b1 63) 12)
                   (N.lor (N.shiftl (N.land b2 63) 6) (N.land b3 63))) in
            let v := (cp - 65536)%N in
            (55296 + N.shiftr v 10)%N :: (56320 + N.land v 1023)%N
              :: utf16_of_bytes r3
        | _ => [65533%N]
        end
  end.

Definition utf16 (s : string) : str :=
  utf16_of_bytes (map (fun a => N_of_ascii a) (list_ascii_of_string s)).

(** The text of a number in a template literal, for the integers below
    10^21 in size, which JavaScript prints in plain decimal digits:
    page numbers, byte sizes and timestamps are such. *)
Definition ofNat (n : nat) : str :=
  utf16 (NilEmpty.string_of_uint (Nat.to_uint n)).

Definition ofN (n : N) : str :=
  utf16 (NilEmpty.string_of_uint (N.to_uint n)).

Definition ofZ (z : Z) : str :=
  utf16 (NilEmpty.string_of_int (Z.to_int z)).

(** ECMAScript [WhiteSpace] and [LineTerminator] code points: the ones
    [String.prototype.trim] strips. *)
Definition isWhiteSpace (c : N) : bool :=
  existsb (N.eqb c)
    [9; 10; 11; 12; 13; 32; 160; 5760; 8232; 8233; 8239; 8287; 12288; 65279]%N
  || ((8192 <=? c) && (c <=? 8202))%N.

Fixpoint trimStart (s : str) : str :=
  match s with
  | [] => []
  | c :: r => if isWhiteSpace c then trimStart r else s
  end.

Definition trimEnd (s : str) : str := rev (trimStart (rev s)).

Definition trim (s : str) : str := trimEnd (trimStart s).

(** [Array.prototype.join]. *)
Fixpoint join (sep : str) (xs : list str) : str :=
  match xs with
  | [] => []
  | [x] => x
  | x :: r => x ++ sep ++ join sep r
  end.

End JS.

Abbreviation jsstring := JS.str.
Notation "'js' s" := (JS.utf16 s%string) (at level 9, s at level 0, only parsing).

(* ================================================================= *)
(** ** Data model *)

(** The browser's [File] object.  [handle] stands for the identity of the
    object (and so for its bytes): two files may agree on name, timestamp
    and size and still be different objects. *)
Record File : Type := mkFile {
  name : jsstring;
  lastModified : Z;
  size : N;
  type : jsstring;
  handle : nat
}.

Inductive Status : Type := Pending | Processing | Success | Error.

Definition Status_eqb (a b : Status) : bool :=
  match a, b with
  | Pending, Pending | Processing, Processing
  | Success, Success | Error, Error => true
  | _, _ => false
  end.

(** [interface FileStatus]; the two optional fields are [option]s. *)
Record FileStatus : Type := mkFileStatus {
  id : jsstring;
  file : File;
  status : Status;
  message : jsstring;
  extractedText : option jsstring;
  pageProgress : option (nat * nat)   (* current, total *)
}.

Inductive BatchState : Type := BatchIdle | BatchProcessing | BatchDone.

(** A thrown value: an [Error] instance with its message, or anything
    else. *)
Inductive Thrown : Type :=
| ThrownError (msg : jsstring)
| ThrownOther.

(** [localStorage], restricted to the key ['pdfConverterHistory'].  The
    item is kept as the array whose JSON text is stored; [failing] says
    that every access to the store throws (storage disabled, quota). *)
Record LocalStorage : Type := mkLocalStorage {
  item : option (list jsstring);
  failing : bool
}.

(** The component's state ([useState] cells), together with the two
    pieces of browser state the handlers touch. *)
Record App : Type := mkApp {
  fileQueue : list FileStatus;
  batchState : BatchState;
  copiedFileId : option jsstring;
  activeAccordion : option jsstring;
  history : list jsstring;
  localStorage : LocalStorage;
  console : list jsstring
}.

Definition initialApp (ls : LocalStorage) : App :=
  mkApp [] BatchIdle None None [] ls [].

Definition isPending (f : FileStatus) : bool := Status_eqb (status f) Pending.
Definition isSuccess (f : FileStatus) : bool := Status_eqb (status f) Success.

(* ================================================================= *)
(** ** History store *)

(** A JavaScript [Set] of strings, as the list of its elements in
    insertion order. *)
Definition Set_has (s : list jsstring) (x : jsstring) : bool :=
  existsb (JS.eqb x) s.

Definition Set_add (s : list jsstring) (x : jsstring) : list jsstring :=
  if Set_has s x then s else s ++ [x].

(** [Array.from(new Set(xs))]. *)
Definition newSet (xs : list jsstring) : list jsstring :=
  fold_left Set_add xs [].

Definition setItem (v : list jsstring) (ls : LocalStorage) : Thrown + LocalStorage :=
  if failing ls then inl ThrownOther
  else inr (mkLocalStorage (Some v) (failing ls)).

Definition removeItem (ls : LocalStorage) : Thrown + LocalStorage :=
  if failing ls then inl ThrownOther
  else inr (mkLocalStorage None (failing ls)).

Definition getItem (ls : LocalStorage) : Thrown + option (list jsstring) :=
  if failing ls then inl ThrownOther else inr (item ls).

(** The mount effect: read the stored history once.  The stored text is
    the one [updateHistory] wrote, so parsing it gives the array back. *)
Definition loadHistory (st : App) : App :=
  match getItem (localStorage st) with
  | inr (Some storedHistory) =>
      mkApp (fileQueue st) (batchState st) (copiedFileId st)
        (activeAccordion st) storedHistory (localStorage st) (console st)
  | inr None => st
  | inl _ =>
      mkApp (fileQueue st) (batchState st) (copiedFileId st)
        (activeAccordion st) [] (localStorage st)
        (console st ++ [js"Failed to load history from localStorage:"])
  end.

Definition updateHistory (newFileNames : list jsstring) (st : App) : App :=
  let updatedHistory := newSet (history st ++ newFileNames) in
  match setItem updatedHistory (localStorage st) with
  | inr ls' =>
      mkApp (fileQueue st) (batchState st) (copiedFileId st)
        (activeAccordion st) updatedHistory ls' (console st)
  | inl _ =>
      mkApp (fileQueue st) (batchState st) (copiedFileId st)
        (activeAccordion st) updatedHistory (localStorage st)
        (console st ++ [js"Failed to save history to localStorage:"])
  end.

Definition clearHistory (st : App) : App :=
  match removeItem (localStorage st) with
  | inr ls' =>
      mkApp (fileQueue st) (batchState st) (copiedFileId st)
        (activeAccordion st) [] ls' (console st)
  | inl _ =>
      mkApp (fileQueue st) (batchState st) (copiedFileId st)
        (activeAccordion st) (history st) (localStorage st)
        (console st ++ [js"Failed to clear history from localStorage:"])
  end.

(* ================================================================= *)
(** ** Queue mutation *)

Definition pdfType : jsstring := js"application/pdf".

Definition fileId (f : File) : jsstring :=
  name f ++ js"-" ++ JS.ofZ (lastModified f) ++ js"-" ++ JS.ofN (size f).

Definition newFileStatus (f : File) : FileStatus :=
  mkFileStatus (fileId f) f Pending (js"ממתין לעיבוד") None None.

(** [handleFiles]: [None] is the [null] file list. *)
Definition handleFiles (files : option (list File)) (st : App) : App :=
  match files with
  | None => st
  | Some files =>
      let newFiles :=
        map newFileStatus (filter (fun f => JS.eqb (type f) pdfType) files) in
      let prevQueue := fileQueue st in
      let existingIds := newSet (map id prevQueue) in
      let uniqueNewFiles :=
        filter (fun f => negb (Set_has existingIds (id f))) newFiles in
      mkApp (prevQueue ++ uniqueNewFiles) BatchIdle (copiedFileId st) None
        (history st) (localStorage st) (console st)
  end.

Definition removeFile (idToRemove : jsstring) (st : App) : App :=
  mkApp (filter (fun item => negb (JS.eqb (id item) idToRemove)) (fileQueue st))
    (batchState st) (copiedFileId st) (activeAccordion st)
    (history st) (localStorage st) (console st).

Definition resetState (st : App) : App :=
  mkApp [] BatchIdle None None (history st) (localStorage st) (console st).

(* ================================================================= *)
(** ** External services *)

(** What rasterising one page does, up to [canvas.toDataURL]. *)
Inductive PageRender : Type :=
| RenderThrows (e : Thrown)   (* [pdf.getPage] or [page.render] rejects *)
| ContextNull                 (* [canvas.getContext('2d')] is [null] *)
| Rendered.                   (* a JPEG data URL was produced *)

(** The answers of the outside world during one run.  The image of a page
    is identified by its file and page number; [response.text] is a
    string, as the signature of [extractTextFromImage] has it. *)
Record World : Type := mkWorld {
  (* [file.arrayBuffer()] then [getDocument(..).promise]: a rejection, or
     the document's [numPages] *)
  getDocument : File -> Thrown + nat;
  getPage : File -> nat -> PageRender;
  (* [ai.models.generateContent] on the page's image: a rejection, or
     [response.text] *)
  generateContent : File -> nat -> Thrown + jsstring
}.

Inductive Call : Type :=
| CallGetDocument (f : File)
| CallGetPage (f : File) (i : nat)
| CallGenerateContent (f : File) (i : nat).

(** What a handler does to the component: state setter calls, in order,
    and the points where it awaits an external service. *)
Inductive Action : Type :=
| SetBatchState (b : BatchState)
| SetActiveAccordion (a : option jsstring)
| SetFileQueue (q : list FileStatus)
| UpdateHistory (newFileNames : list jsstring)
| Await (c : Call).

Definition applyAction (st : App) (a : Action) : App :=
  match a with
  | SetBatchState b =>
      mkApp (fileQueue st) b (copiedFileId st) (activeAccordion st)
        (history st) (localStorage st) (console st)
  | SetActiveAccordion x =>
      mkApp (fileQueue st) (batchState st) (copiedFileId st) x
        (history st) (localStorage st) (console st)
  | SetFileQueue q =>
      mkApp q (batchState st) (copiedFileId st) (activeAccordion st)
        (history st) (localStorage st) (console st)
  | UpdateHistory names => updateHistory names st
  | Await _ => st
  end.

Definition runActions (l : list Action) (st : App) : App :=
  fold_left applyAction l st.

(** Every state the component passes through while the actions run. *)
Fixpoint statesOf (l : list Action) (st : App) : list App :=
  match l with
  | [] => [st]
  | a :: r => st :: statesOf r (applyAction st a)
  end.

(* ================================================================= *)
(** ** The batch pipeline *)

(** The body of [processBatch] threads the local [processedQueue], calls
    state setters and awaits, and may throw: a state, writer and error
    monad. *)
Definition Task (A : Type) : Type :=
  list FileStatus -> list Action * list FileStatus * (Thrown + A).

Definition ret {A} (a : A) : Task A := fun pq => ([], pq, inr a).

Definition bind {A B} (m : Task A) (k : A -> Task B) : Task B :=
  fun pq =>
    match m pq with
    | (l1, pq1, inl e) => (l1, pq1, inl e)
    | (l1, pq1, inr a) =>
        match k a pq1 with
        | (l2, pq2, r) => (l1 ++ l2, pq2, r)
        end
    end.

Notation "x <- m ;; k" := (bind m (fun x => k))
  (at level 61, m at next level, right associativity).
Notation "m ;; k" := (bind m (fun _ => k))
  (at level 61, right associativity).

Definition throw {A} (e : Thrown) : Task A := fun pq => ([], pq, inl e).

Definition await {A} (c : Call) (r : Thrown + A) : Task A :=
  fun pq => ([Await c], pq, r).

(** [processedQueue = processedQueue.map(item => item.id === fid ? g item : item)] *)
Definition mapItem (fid : jsstring) (g : FileStatus -> FileStatus)
    (q : list FileStatus) : list FileStatus :=
  map (fun item => if JS.eqb (id item) fid then g item else item) q.

Definition updateItem (fid : jsstring) (g : FileStatus -> FileStatus) : Task unit :=
  fun pq => ([], mapItem fid g pq, inr tt).

(** [setFileQueue(processedQueue)] *)
Definition setFileQueue : Task unit :=
  fun pq => ([SetFileQueue pq], pq, inr tt).

(** [try { body } catch (error) { handler error } finally { setFileQueue(processedQueue) }] *)
Definition tryCatchFinally {A} (body : Task A) (handler : Thrown -> Task unit)
    : list FileStatus -> list Action * list FileStatus :=
  fun pq =>
    match body pq with
    | (l1, pq1, inr _) => (l1 ++ [SetFileQueue pq1], pq1)
    | (l1, pq1, inl e) =>
        match handler e pq1 with
        | (l2, pq2, _) => (l1 ++ l2 ++ [SetFileQueue pq2], pq2)
        end
    end.

Definition apiErrorMessage : jsstring := js"שגיאה בתקשורת עם ה-API של Gemini.".
Definition canvasErrorMessage : jsstring := js"לא ניתן היה ליצור קונטקסט של קנבס.".
Definition unexpectedErrorMessage : jsstring := js"אירעה שגיאה לא צפויה.".
Definition startMessage : jsstring := js"מתחיל עיבוד...".
Definition doneMessage : jsstring := js"העיבוד הושלם בהצלחה".
Definition pageSeparator : jsstring := [10; 10; 45; 45; 45; 10; 10]%N.

Definition pageMessage (i numPages : nat) : jsstring :=
  js"מעבד עמוד " ++ JS.ofNat i ++ js" מתוך " ++ JS.ofNat numPages.

(** [extractTextFromImage]: any failure of the API call is rethrown as one
    fixed [Error]. *)
Definition extractTextFromImage (response : Thrown + jsstring) : Thrown + jsstring :=
  match response with
  | inr text => inr text
  | inl _ => inl (ThrownError apiErrorMessage)
  end.

Definition markProcessing (item : FileStatus) : FileStatus :=
  mkFileStatus (id item) (file item) Processing startMessage
    (extractedText item) (pageProgress item).

Definition markPage (i numPages : nat) (item : FileStatus) : FileStatus :=
  mkFileStatus (id item) (file item) (status item) (pageMessage i numPages)
    (extractedText item) (Some (i, numPages)).

Definition markSuccess (fullText : jsstring) (item : FileStatus) : FileStatus :=
  mkFileStatus (id item) (file item) Success doneMessage
    (Some (JS.trim fullText)) (pageProgress item).

Definition markError (errorMessage : jsstring) (item : FileStatus) : FileStatus :=
  mkFileStatus (id item) (file item) Error errorMessage
    (extractedText item) (pageProgress item).

(** [error instanceof Error ? error.message : '...'] *)
Definition errorMessageOf (error : Thrown) : jsstring :=
  match error with
  | ThrownError msg => msg
  | ThrownOther => unexpectedErrorMessage
  end.

(** One pass of the page loop and the passes after it: [k] pages remain,
    [i] is the loop variable. *)
Fixpoint pageLoop (w : World) (fileStatus : FileStatus) (numPages k i : nat)
    (fullText : jsstring) : Task jsstring :=
  match k with
  | 0 => ret fullText
  | S k' =>
      updateItem (id fileStatus) (markPage i numPages) ;;
      setFileQueue ;;
      page <- await (CallGetPage (file fileStatus) i)
                (match getPage w (file fileStatus) i with
                 | RenderThrows e => inl e
                 | r => inr r
                 end) ;;
      match page with
      | ContextNull => throw (ThrownError canvasErrorMessage)
      | _ => ret tt
      end ;;
      textFromPage <- await (CallGenerateContent (file fileStatus) i)
                        (extractTextFromImage
                           (generateContent w (file fileStatus) i)) ;;
      pageLoop w fileStatus numPages k' (S i)
        (fullText ++ JS.trim textFromPage ++ pageSeparator)
  end.

Definition tryBody (w : World) (fileStatus : FileStatus) : Task unit :=
  numPages <- await (CallGetDocument (file fileStatus))
                (getDocument w (file fileStatus)) ;;
  fullText <- pageLoop w fileStatus numPages numPages 1 [] ;;
  updateItem (id fileStatus) (markSuccess fullText).

Definition catchHandler (fileStatus : FileStatus) (error : Thrown) : Task unit :=
  updateItem (id fileStatus) (markError (errorMessageOf error)).

(** The body of the [for ... of] loop for one pending record. *)
Definition processFile (w : World) (fileStatus : FileStatus)
    (processedQueue : list FileStatus) : list Action * list FileStatus :=
  let pq := mapItem (id fileStatus) markProcessing processedQueue in
  match tryCatchFinally (tryBody w fileStatus) (catchHandler fileStatus) pq with
  | (l, pq') => (SetFileQueue pq :: l, pq')
  end.

(** [for (const fileStatus of fileQueue)], over the rest of the captured
    array. *)
Fixpoint forOf (w : World) (rest processedQueue : list FileStatus)
    : list Action * list FileStatus :=
  match rest with
  | [] => ([], processedQueue)
  | fileStatus :: rest' =>
      if negb (isPending fileStatus) then forOf w rest' processedQueue
      else
        match processFile w fileStatus processedQueue with
        | (l1, pq1) =>
            match forOf w rest' pq1 with
            | (l2, pq2) => (l1 ++ l2, pq2)
            end
        end
  end.

(** [processBatch], as the handler of the render whose [fileQueue] it
    captured: the setter calls and awaits it performs. *)
Definition processBatch (w : World) (fileQueue : list FileStatus) : list Action :=
  if negb (existsb isPending fileQueue) then []
  else
    match forOf w fileQueue fileQueue with
    | (l, processedQueue) =>
        let successfulFiles := filter isSuccess processedQueue in
        [SetBatchState BatchProcessing; SetActiveAccordion None]
          ++ l
          ++ (if 0 <? List.length successfulFiles
              then [UpdateHistory (map (fun f => name (file f)) successfulFiles)]
              else [])
          ++ [SetBatchState BatchDone]
    end.

(** The local [processedQueue] when the loop is over. *)
Definition processedQueueOf (w : World) (fileQueue : list FileStatus)
    : list FileStatus :=
  snd (forOf w fileQueue fileQueue).

(** A whole run, with nothing else happening in between. *)
Definition runBatch (w : World) (st : App) : App :=
  runActions (processBatch w (fileQueue st)) st.

(** The start button: [disabled={!hasPendingFiles || batchState === 'processing'}]. *)
Definition hasPendingFiles (st : App) : bool := existsb isPending (fileQueue st).

Definition startDisabled (st : App) : bool :=
  negb (hasPendingFiles st)
  || match batchState st with BatchProcessing => true | _ => false end.

Definition clickStart (w : World) (st : App) : list Action :=
  if startDisabled st then [] else processBatch w (fileQueue st).

(* ================================================================= *)
(** ** Export *)

Record Download : Type := mkDownload {
  download : jsstring;   (* file name *)
  mimeType : jsstring;
  content : jsstring
}.

(** [`${x}`] for an optional string. *)
Definition templateOpt (x : option jsstring) : jsstring :=
  match x with Some s => s | None => js"undefined" end.

Definition exportBlock (item : FileStatus) : jsstring :=
  js"========== START: " ++ name (file item) ++ js" ==========" ++ [10; 10]%N
    ++ templateOpt (extractedText item) ++ [10; 10]%N
    ++ js"========== END: " ++ name (file item) ++ js" ==========".

(** [handleExportAll] calls no setter: it returns the state it was given
    and the file it offers for download, if any. *)
Definition handleExportAll (st : App) : App * option Download :=
  let successfulFiles := filter isSuccess (fileQueue st) in
  if List.length successfulFiles =? 0 then (st, None)
  else
    (st, Some (mkDownload (js"pdf_extraction_results.txt")
                 (js"text/plain;charset=utf-8")
                 (JS.join [10; 10; 10]%N (map exportBlock successfulFiles)))).


(* ================================================================= *)
(** ** Reading a list of actions *)

Definition snapshots (l : list Action) : list (list FileStatus) :=
  flat_map (fun a => match a with SetFileQueue q => [q] | _ => [] end) l.

Definition awaits (l : list Action) : list Call :=
  flat_map (fun a => match a with Await c => [c] | _ => [] end) l.

(** The files whose document was opened, in the order of the calls. *)
Definition documentsOpened (l : list Action) : list File :=
  flat_map (fun a => match a with Await (CallGetDocument f) => [f] | _ => [] end) l.

Definition documentsOf (cs : list Call) : list File :=
  flat_map (fun c => match c with CallGetDocument f => [f] | _ => [] end) cs.

(** An action of the loop: it sets the queue, to one that satisfies [P],
    or awaits a service. *)
Definition logOk (P : list FileStatus -> Prop) (a : Action) : Prop :=
  match a with
  | SetFileQueue q => P q
  | Await _ => True
  | _ => False
  end.

Definition withQueue (q : list FileStatus) (st : App) : App :=
  mkApp q (batchState st) (copiedFileId st) (activeAccordion st)
    (history st) (localStorage st) (console st).

Definition callFile (c : Call) : File :=
  match c with
  | CallGetDocument f | CallGetPage f _ | CallGenerateContent f _ => f
  end.

Definition isRecognition (c : Call) : bool :=
  match c with CallGenerateContent _ _ => true | _ => false end.

(** What the [try] block of one file comes to, as a function of the
    world's answers alone: the calls it makes and its completion. *)
Fixpoint pageCalls (w : World) (f : File) (k i : nat) : list Call :=
  match k with
  | 0 => []
  | S k' =>
      CallGetPage f i ::
      match getPage w f i with
      | Rendered =>
          CallGenerateContent f i ::
          match generateContent w f i with
          | inr _ => pageCalls w f k' (S i)
          | inl _ => []
          end
      | _ => []
      end
  end.

Fixpoint pageResult (w : World) (f : File) (k i : nat) (fullText : jsstring)
    : Thrown + jsstring :=
  match k with
  | 0 => inr fullText
  | S k' =>
      match getPage w f i with
      | RenderThrows e => inl e
      | ContextNull => inl (ThrownError canvasErrorMessage)
      | Rendered =>
          match generateContent w f i with
          | inl _ => inl (ThrownError apiErrorMessage)
          | inr text =>
              pageResult w f k' (S i) (fullText ++ JS.trim text ++ pageSeparator)
          end
      end
  end.

(** The record of the file after the page loop. *)
Fixpoint pageItem (w : World) (f : File) (numPages k i : nat)
    (item : FileStatus) : FileStatus :=
  match k with
  | 0 => item
  | S k' =>
      match getPage w f i with
      | Rendered =>
          match generateContent w f i with
          | inr _ => pageItem w f numPages k' (S i) (markPage i numPages item)
          | inl _ => markPage i numPages item
          end
      | _ => markPage i numPages item
      end
  end.

(** Completion of the [try] block of a file: the caught value, or the
    accumulated [fullText]. *)
Definition fileResult (w : World) (f : File) : Thrown + jsstring :=
  match getDocument w f with
  | inl e => inl e
  | inr numPages => pageResult w f numPages 1 []
  end.

Definition fileCalls (w : World) (f : File) : list Call :=
  CallGetDocument f ::
  match getDocument w f with
  | inl _ => []
  | inr numPages => pageCalls w f numPages 1
  end.

(** The record of a file when its pass of the loop is over. *)
Definition fileItem (w : World) (f : File) (item : FileStatus) : FileStatus :=
  match getDocument w f with
  | inl e => markError (errorMessageOf e) (markProcessing item)
  | inr numPages =>
      let item' := pageItem w f numPages numPages 1 (markProcessing item) in
      match pageResult w f numPages 1 [] with
      | inl e => markError (errorMessageOf e) item'
      | inr fullText => markSuccess fullText item'
      end
  end.

(** What the whole loop does to one record of [processedQueue]. *)
Definition visitItem (w : World) (item fileStatus : FileStatus) : FileStatus :=
  if isPending fileStatus && JS.eqb (id item) (id fileStatus)
  then fileItem w (file fileStatus) item
  else item.

Definition loopItem (w : World) (rest : list FileStatus) (item : FileStatus)
    : FileStatus :=
  fold_left (visitItem w) rest item.

(* ================================================================= *)
(** ** Interleaving *)

(** While [processBatch] is suspended at an [await], other handlers of
    the component may run.  A schedule lists the run's own actions and
    the calls of [handleFiles] that happen in between. *)
Inductive Step : Type :=
| Own (a : Action)
| AddFiles (files : option (list File)).

Inductive Interleaving : list Action -> list Step -> Prop :=
| Interleaving_nil : Interleaving [] []
| Interleaving_own a l s :
    Interleaving l s -> Interleaving (a :: l) (Own a :: s)
| Interleaving_add files l s :
    Interleaving l s -> Interleaving l (AddFiles files :: s).

Definition applyStep (st : App) (s : Step) : App :=
  match s with
  | Own a => applyAction st a
  | AddFiles files => handleFiles files st
  end.

Definition runSchedule (s : list Step) (st : App) : App :=
  fold_left applyStep s st.

(** The documents opened while a schedule runs. *)
Definition scheduleDocuments (s : list Step) : list File :=
  flat_map (fun x => match x with Own a => documentsOpened [a] | AddFiles _ => [] end) s.

(* ================================================================= *)
(** ** Commands *)

(** The commands of the user interface, each run to completion. *)
Inductive Command : Type :=
| CmdAddFiles (files : option (list File))
| CmdRemoveFile (idToRemove : jsstring)
| CmdStartBatch (w : World)
| CmdReset
| CmdExportAll
| CmdClearHistory.

Definition exec (st : App) (c : Command) : App :=
  match c with
  | CmdAddFiles files => handleFiles files st
  | CmdRemoveFile i => removeFile i st
  | CmdStartBatch w => runBatch w st
  | CmdReset => resetState st
  | CmdExportAll => fst (handleExportAll st)
  | CmdClearHistory => clearHistory st
  end.

(** The states a command passes through, the one it starts from
    included. *)
Definition trace (st : App) (c : Command) : list App :=
  match c with
  | CmdStartBatch w => statesOf (processBatch w (fileQueue st)) st
  | _ => [st; exec st c]
  end.

Fixpoint traceAll (st : App) (cs : list Command) : list App :=
  match cs with
  | [] => [st]
  | c :: r => trace st c ++ traceAll (exec st c) r
  end.

(** A selection all of whose PDF files have different ids. *)
Definition distinctSelection (c : Command) : Prop :=
  match c with
  | CmdAddFiles (Some files) =>
      NoDup (map fileId (filter (fun f => JS.eqb (type f) pdfType) files))
  | _ => True
  end.

(* ================================================================= *)
(** ** Field and status invariants *)

(** The invariant as the data model words it. *)
Definition progressOnlyWhileProcessing (x : FileStatus) : Prop :=
  pageProgress x <> None -> status x = Processing.

Definition textOnlyOnSuccess (x : FileStatus) : Prop :=
  extractedText x <> None -> status x = Success.

(** What the code keeps: no progress on a record that is still pending. *)
Definition noProgressWhilePending (x : FileStatus) : Prop :=
  status x = Pending -> pageProgress x = None.

Definition recordInv (x : FileStatus) : Prop :=
  textOnlyOnSuccess x /\ noProgressWhilePending x.

(** A record of the local queue while [rest] is still to visit: it
    satisfies the invariant and, if a pending record of [rest] has its
    id, it is still pending. *)
Definition waiting (rest : list FileStatus) (x : FileStatus) : Prop :=
  recordInv x
  /\ forall fs, In fs rest -> isPending fs = true -> id x = id fs ->
                status x = Pending.

(** The same while the file of [fs] is being processed. *)
Definition during (fs : FileStatus) (rest : list FileStatus) (x : FileStatus) : Prop :=
  recordInv x
  /\ (id x = id fs -> extractedText x = None /\ status x = Processing)
  /\ forall fs', In fs' rest -> isPending fs' = true -> id x = id fs' ->
                 status x = Pending.

Definition queueInv (q : list FileStatus) : Prop :=
  NoDup (map id q) /\ Forall recordInv q.

Definition lookupId (i : jsstring) (q : list FileStatus) : option FileStatus :=
  find (fun x => JS.eqb (id x) i) q.

(* ================================================================= *)
(** ** Scenarios *)

Definition emptyStorage : LocalStorage := mkLocalStorage None false.

Definition fileA : File := mkFile (js"A.pdf") 1700000000000 12345 pdfType 0.

(** Another file object with the name, timestamp and size of [fileA]. *)
Definition fileA' : File := mkFile (js"A.pdf") 1700000000000 12345 pdfType 1.

Definition fileB : File := mkFile (js"B.pdf") 1700000000001 777 pdfType 2.

(** Two pages, recognised as "Hello" and "World". *)
Definition helloWorld : World :=
  mkWorld (fun _ => inr 2) (fun _ _ => Rendered)
    (fun _ i => inr (if i =? 1 then js"Hello" else js"World")).

(** One page, recognised as "Hello". *)
Definition onePage : World :=
  mkWorld (fun _ => inr 1) (fun _ _ => Rendered) (fun _ _ => inr (js"Hello")).

(** No pages at all. *)
Definition noPages : World :=
  mkWorld (fun _ => inr 0) (fun _ _ => Rendered) (fun _ _ => inr []).

(** The document of [fileB] cannot be opened; every other file has one
    page. *)
Definition brokenB : World :=
  mkWorld
    (fun f => if JS.eqb (name f) (js"B.pdf")
              then inl (ThrownError (js"Invalid PDF structure."))
              else inr 1)
    (fun _ _ => Rendered) (fun _ _ => inr (js"Hello")).

(** "Hello", the separator, "World": the pages joined. *)
Definition helloWorldJoined : jsstring :=
  js"Hello" ++ pageSeparator ++ js"World".

(** The same, followed by the dashes of a last separator. *)
Definition helloWorldStored : jsstring :=
  js"Hello" ++ pageSeparator ++ js"World" ++ [10; 10; 45; 45; 45]%N.

(** The document of the file object with handle 1 cannot be opened;
    every other file has one page. *)
Definition brokenHandle1 : World :=
  mkWorld
    (fun f => if handle f =? 1
              then inl (ThrownError (js"Invalid PDF structure."))
              else inr 1)
    (fun _ _ => Rendered) (fun _ _ => inr (js"Hello")).

(** The document of the file object with handle 0 has no pages; every
    other document has one page, recognised as "Hello". *)
Definition zeroThenOne : World :=
  mkWorld (fun f => if handle f =? 0 then inr 0 else inr 1)
    (fun _ _ => Rendered) (fun _ _ => inr (js"Hello")).

(** The state in the middle of a run over "A.pdf" and "B.pdf": the batch
    state is processing, the first record is being processed, the second
    is still pending. *)
Definition midRun : App :=
  mkApp [markProcessing (newFileStatus fileA); newFileStatus fileB]
    BatchProcessing None None [] emptyStorage [].

(** A store that throws on every access, and a state whose history has
    one name. *)
Definition failingStorage : LocalStorage :=
  mkLocalStorage (Some [js"A.pdf"]) true.

Definition withHistoryA (ls : LocalStorage) : App :=
  mkApp [] BatchDone None None [js"A.pdf"] ls [].

(** The state with another history. *)
Definition withHistory (h : list jsstring) (st : App) : App :=
  mkApp (fileQueue st) (batchState st) (copiedFileId st) (activeAccordion st)
    h (localStorage st) (console st).

(* ================================================================= *)
(** ** Further notions *)

(** The page a call is about; opening the document is page 0. *)
Definition pageOf (c : Call) : nat :=
  match c with
  | CallGetDocument _ => 0
  | CallGetPage _ i | CallGenerateContent _ i => i
  end.

(** Page [i] of the file goes through: it is rendered and recognised. *)
Definition pageOk (w : World) (f : File) (text : nat -> jsstring) (i : nat) : Prop :=
  getPage w f i = Rendered /\ generateContent w f i = inr (text i).

(** [fullText] after pages [i], [i+1], ... of the given texts. *)
Definition pagesText (text : nat -> jsstring) (i k : nat) : jsstring :=
  flat_map (fun j => JS.trim (text j) ++ pageSeparator) (seq i k).

(** A progress pair counts a page of the document. *)
Definition progressInRange (x : FileStatus) : Prop :=
  forall c t, pageProgress x = Some (c, t) -> 1 <= c <= t.

Definition isProcessing (x : FileStatus) : bool := Status_eqb (status x) Processing.

(** A new session on a given store: the initial state after the mount
    effect. *)
Definition freshSession (ls : LocalStorage) : App := loadHistory (initialApp ls).

Definition isClearHistory (c : Command) : bool :=
  match c with CmdClearHistory => true | _ => false end.

Definition isTerminal (x : FileStatus) : Prop :=
  status x = Success \/ status x = Error.

(** [l1] is [l2] with some elements left out, the others in their order. *)
Inductive Subseq {A : Type} : list A -> list A -> Prop :=
| Subseq_nil : Subseq [] []
| Subseq_skip x l1 l2 : Subseq l1 l2 -> Subseq l1 (x :: l2)
| Subseq_take x l1 l2 : Subseq l1 l2 -> Subseq (x :: l1) (x :: l2).

(** A text without white space at either end. *)
Definition trimmed (s : jsstring) : Prop :=
  match s with
  | [] => True
  | c :: _ => JS.isWhiteSpace c = false /\ JS.isWhiteSpace (last s c) = false
  end.

(** The text of a record, if it has one, is trimmed. *)
Definition textTrimmed (x : FileStatus) : Prop :=
  forall s, extractedText x = Some s -> trimmed s.

(** The calls for one page that goes through. *)
Definition pageCallsOk (f : File) (i : nat) : list Call :=
  [CallGetPage f i; CallGenerateContent f i].

(** The message a failure on page [j] is reported with, if the page
    fails. *)
Definition pageFailure (w : World) (f : File) (j : nat) : option jsstring :=
  match getPage w f j with
  | RenderThrows e => Some (errorMessageOf e)
  | ContextNull => Some canvasErrorMessage
  | Rendered =>
      match generateContent w f j with
      | inl _ => Some apiErrorMessage
      | inr _ => None
      end
  end.

(** No record is being processed; only records with the given id are. *)
Definition noProcessing (q : list FileStatus) : Prop :=
  forall x, In x q -> status x <> Processing.

Definition processingOnly (fid : jsstring) (q : list FileStatus) : Prop :=
  forall x, In x q -> status x = Processing -> id x = fid.

(** A schedule in which [handleFiles] runs only while the batch is
    suspended, that is, right after one of its awaits. *)
Inductive AtAwaits : list Action -> list Step -> Prop :=
| AtAwaits_nil : AtAwaits [] []
| AtAwaits_own a l s :
    AtAwaits l s -> AtAwaits (a :: l) (Own a :: s)
| AtAwaits_add c files l s :
    AtAwaits (Await c :: l) (Own (Await c) :: s) ->
    AtAwaits (Await c :: l) (Own (Await c) :: AddFiles files :: s).

(* ================================================================= *)
(** * Properties *)

(** ** Strings and sets *)

Lemma JS_eqb_eq (a b : jsstring) : JS.eqb a b = true <-> a = b.
Proof. unfold JS.eqb; destruct (JS.eq_dec a b); split; congruence. Qed.

Lemma JS_eqb_refl (a : jsstring) : JS.eqb a a = true.
Proof. now apply JS_eqb_eq. Qed.

Lemma JS_eqb_neq (a b : jsstring) : JS.eqb a b = false <-> a <> b.
Proof. unfold JS.eqb; destruct (JS.eq_dec a b); split; congruence. Qed.

Lemma JS_eqb_sym (a b : jsstring) : JS.eqb a b = JS.eqb b a.
Proof.
  destruct (JS.eqb b a) eqn:E.
  - apply JS_eqb_eq in E. subst. apply JS_eqb_refl.
  - apply JS_eqb_neq in E. apply JS_eqb_neq. congruence.
Qed.

Lemma Status_eqb_eq (a b : Status) : Status_eqb a b = true <-> a = b.
Proof. destruct a, b; simpl; split; congruence. Qed.

Lemma isPending_true (x : FileStatus) : isPending x = true <-> status x = Pending.
Proof. apply Status_eqb_eq. Qed.

Lemma isSuccess_true (x : FileStatus) : isSuccess x = true <-> status x = Success.
Proof. apply Status_eqb_eq. Qed.

Example utf16_ascii : js"A.pdf" = [65; 46; 112; 100; 102]%N.
Proof. reflexivity. Qed.

Example utf16_hebrew : js"עמוד" = [1506; 1502; 1493; 1491]%N.
Proof. reflexivity. Qed.

Example trim_example : JS.trim ([32; 160; 9] ++ js"Hello" ++ [10; 13; 8232])%N = js"Hello".
Proof. reflexivity. Qed.

Example ofNat_example :
  JS.ofNat 12 = js"12" /\ JS.ofZ (-5) = js"-5" /\ JS.ofN 0 = js"0".
Proof. repeat split. Qed.

Lemma Set_has_In (s : list jsstring) (x : jsstring) :
  Set_has s x = true <-> In x s.
Proof.
  unfold Set_has. rewrite existsb_exists. split.
  - intros [y [Hy E]]. apply JS_eqb_eq in E. now subst.
  - intros H. exists x. split; [assumption | apply JS_eqb_refl].
Qed.

Lemma Set_has_false (s : list jsstring) (x : jsstring) :
  Set_has s x = false <-> ~ In x s.
Proof.
  rewrite <- Set_has_In. destruct (Set_has s x); split; congruence.
Qed.

Lemma fold_Set_add_In (xs s : list jsstring) (x : jsstring) :
  In x (fold_left Set_add xs s) <-> In x s \/ In x xs.
Proof.
  revert s. induction xs as [|y xs IH]; intros s; simpl.
  - tauto.
  - rewrite IH. unfold Set_add. destruct (Set_has s y) eqn:E.
    + apply Set_has_In in E. intuition (subst; auto).
    + rewrite in_app_iff. simpl. intuition (subst; auto).
Qed.

Lemma fold_Set_add_NoDup (xs s : list jsstring) :
  NoDup s -> NoDup (fold_left Set_add xs s).
Proof.
  revert s. induction xs as [|y xs IH]; intros s Hs; simpl; [assumption|].
  apply IH. unfold Set_add. destruct (Set_has s y) eqn:E; [assumption|].
  apply Set_has_false in E.
  apply NoDup_app; [assumption | repeat constructor; simpl; tauto |].
  intros a Ha [Hb|[]]. subst. contradiction.
Qed.

(** Elements that are all in the set already leave it as it is. *)
Lemma fold_Set_add_absorb (xs s : list jsstring) :
  (forall x, In x xs -> In x s) -> fold_left Set_add xs s = s.
Proof.
  revert s. induction xs as [|y xs IH]; intros s H; simpl; [reflexivity|].
  assert (E : Set_has s y = true) by (apply Set_has_In, H; now left).
  unfold Set_add at 2. rewrite E. apply IH. intros x Hx. apply H. now right.
Qed.

Lemma fold_Set_add_fresh (xs s : list jsstring) :
  NoDup (s ++ xs) -> fold_left Set_add xs s = s ++ xs.
Proof.
  revert s. induction xs as [|y xs IH]; intros s H; simpl.
  - now rewrite app_nil_r.
  - assert (E : Set_has s y = false).
    { apply Set_has_false. intros Hy. apply NoDup_remove_2 in H.
      apply H. apply in_or_app. now left. }
    unfold Set_add at 2. rewrite E.
    replace (s ++ y :: xs) with ((s ++ [y]) ++ xs) in * by now rewrite <- app_assoc.
    now apply IH.
Qed.

Lemma newSet_NoDup (xs : list jsstring) : NoDup (newSet xs).
Proof. apply fold_Set_add_NoDup. constructor. Qed.

Lemma newSet_In (xs : list jsstring) (x : jsstring) : In x (newSet xs) <-> In x xs.
Proof. unfold newSet. rewrite fold_Set_add_In. simpl. tauto. Qed.

Lemma newSet_NoDup_id (xs : list jsstring) : NoDup xs -> newSet xs = xs.
Proof. intros H. unfold newSet. now rewrite fold_Set_add_fresh. Qed.

Lemma newSet_app (xs ys : list jsstring) :
  newSet (xs ++ ys) = fold_left Set_add ys (newSet xs).
Proof. unfold newSet. apply fold_left_app. Qed.

(* ================================================================= *)
(** ** The local queue of the loop *)

Lemma mapItem_ext (fid : jsstring) (g h : FileStatus -> FileStatus) q :
  (forall x, g x = h x) -> mapItem fid g q = mapItem fid h q.
Proof.
  intros E. unfold mapItem. apply map_ext. intros x.
  destruct (JS.eqb (id x) fid); [apply E | reflexivity].
Qed.

Lemma mapItem_same (fid : jsstring) q : mapItem fid (fun x => x) q = q.
Proof.
  unfold mapItem. rewrite <- (map_id q) at 2. apply map_ext.
  intros x. now destruct (JS.eqb (id x) fid).
Qed.

Lemma mapItem_compose (fid : jsstring) (g h : FileStatus -> FileStatus) q :
  (forall x, id (h x) = id x) ->
  mapItem fid g (mapItem fid h q) = mapItem fid (fun x => g (h x)) q.
Proof.
  intros Hh. unfold mapItem. rewrite map_map. apply map_ext. intros x.
  destruct (JS.eqb (id x) fid) eqn:E.
  - now rewrite Hh, E.
  - now rewrite E.
Qed.

Lemma mapItem_ids (fid : jsstring) (g : FileStatus -> FileStatus) q :
  (forall x, id (g x) = id x) -> map id (mapItem fid g q) = map id q.
Proof.
  intros Hg. unfold mapItem. rewrite map_map. apply map_ext. intros x.
  now destruct (JS.eqb (id x) fid).
Qed.

(** The page loop rewrites the message and the progress of a record and
    nothing else. *)
Ltac pageItem_keeps :=
  match goal with
  | |- forall w f n k i x, _ =>
      intros w f n k; induction k as [|k IH]; intros i x; simpl;
      [ reflexivity
      | destruct (getPage w f i); try reflexivity;
        destruct (generateContent w f i); [reflexivity | now rewrite IH] ]
  end.

Lemma pageItem_id : forall w f n k i x, id (pageItem w f n k i x) = id x.
Proof. pageItem_keeps. Qed.

Lemma pageItem_file : forall w f n k i x, file (pageItem w f n k i x) = file x.
Proof. pageItem_keeps. Qed.

Lemma pageItem_status : forall w f n k i x,
  status (pageItem w f n k i x) = status x.
Proof. pageItem_keeps. Qed.

Lemma pageItem_text : forall w f n k i x,
  extractedText (pageItem w f n k i x) = extractedText x.
Proof. pageItem_keeps. Qed.

Lemma fileItem_id w f x : id (fileItem w f x) = id x.
Proof.
  unfold fileItem. destruct (getDocument w f) as [e|n]; [reflexivity|].
  destruct (pageResult w f n 1 []); simpl; now rewrite pageItem_id.
Qed.

Lemma fileItem_file w f x : file (fileItem w f x) = file x.
Proof.
  unfold fileItem. destruct (getDocument w f) as [e|n]; [reflexivity|].
  destruct (pageResult w f n 1 []); simpl; now rewrite pageItem_file.
Qed.

(** The page loop, run on any local queue: the queue it leaves, its
    completion and the calls it makes are the ones computed from the
    world's answers. *)
Lemma pageLoop_run w fs n k : forall i fullText pq,
  let out := pageLoop w fs n k i fullText pq in
  snd (fst out) = mapItem (id fs) (pageItem w (file fs) n k i) pq
  /\ snd out = pageResult w (file fs) k i fullText
  /\ awaits (fst (fst out)) = pageCalls w (file fs) k i.
Proof.
  induction k as [|k IH]; intros i fullText pq; cbn zeta.
  - simpl. now rewrite mapItem_same.
  - specialize (IH (S i)).
    cbn [pageLoop pageItem pageResult pageCalls].
    unfold bind, updateItem, setFileQueue, await, throw, ret.
    destruct (getPage w (file fs) i) eqn:G; cbn.
    + repeat split.
    + repeat split.
    + destruct (generateContent w (file fs) i) as [e|text] eqn:A; cbn.
      * repeat split.
      * specialize (IH (fullText ++ JS.trim text ++ pageSeparator)
                       (mapItem (id fs) (markPage i n) pq)).
        cbn zeta in IH.
        destruct (pageLoop w fs n k (S i) _ _) as [[l pq'] r].
        cbn in *. destruct IH as (H1 & H2 & H3). subst.
        split; [|split]; [now rewrite mapItem_compose | reflexivity |].
        now rewrite H3.
Qed.

Lemma awaits_app l1 l2 : awaits (l1 ++ l2) = awaits l1 ++ awaits l2.
Proof. apply flat_map_app. Qed.

Lemma snapshots_app l1 l2 : snapshots (l1 ++ l2) = snapshots l1 ++ snapshots l2.
Proof. apply flat_map_app. Qed.

Lemma documentsOpened_app l1 l2 :
  documentsOpened (l1 ++ l2) = documentsOpened l1 ++ documentsOpened l2.
Proof. apply flat_map_app. Qed.

Lemma documentsOpened_awaits l : documentsOpened l = documentsOf (awaits l).
Proof.
  induction l as [|a l IH]; [reflexivity|].
  destruct a as [b|x|q|ns|c]; simpl; try assumption.
  unfold documentsOf in *. simpl. rewrite <- IH. now destruct c.
Qed.

Lemma documentsOf_app c1 c2 :
  documentsOf (c1 ++ c2) = documentsOf c1 ++ documentsOf c2.
Proof. apply flat_map_app. Qed.

Lemma documentsOf_pageCalls w f k i : documentsOf (pageCalls w f k i) = [].
Proof.
  revert i. induction k as [|k IH]; intros i; simpl; [reflexivity|].
  destruct (getPage w f i); try reflexivity.
  simpl. destruct (generateContent w f i); [reflexivity | apply IH].
Qed.

Lemma documentsOf_fileCalls w f : documentsOf (fileCalls w f) = [f].
Proof.
  unfold fileCalls. simpl. f_equal.
  destruct (getDocument w f); [reflexivity | apply documentsOf_pageCalls].
Qed.

(** One pass of the [for ... of] body. *)
Lemma processFile_run w fs pq :
  snd (processFile w fs pq) = mapItem (id fs) (fileItem w (file fs)) pq
  /\ awaits (fst (processFile w fs pq)) = fileCalls w (file fs)
  /\ exists l, fst (processFile w fs pq) = l ++ [SetFileQueue (snd (processFile w fs pq))].
Proof.
  unfold processFile, tryCatchFinally, tryBody, catchHandler, fileItem, fileCalls.
  unfold bind, await, updateItem. cbv beta.
  destruct (getDocument w (file fs)) as [e|n] eqn:D.
  - cbn. split; [|split].
    + apply mapItem_compose. reflexivity.
    + reflexivity.
    + now exists [SetFileQueue (mapItem (id fs) markProcessing pq);
                  Await (CallGetDocument (file fs))].
  - pose proof (pageLoop_run w fs n n 1 [] (mapItem (id fs) markProcessing pq)) as H.
    cbn zeta in H.
    destruct (pageLoop w fs n n 1 [] (mapItem (id fs) markProcessing pq))
      as [[l pq1] r].
    cbn in H. destruct H as (H1 & H2 & H3). subst pq1 r.
    destruct (pageResult w (file fs) n 1 []) as [e|fullText]; cbn.
    + split; [|split].
      * rewrite !mapItem_compose; try reflexivity.
        intros x. now rewrite pageItem_id.
      * fold (awaits (l ++ [])). rewrite awaits_app. cbn. rewrite app_nil_r.
        now f_equal.
      * eexists (_ :: _ :: _). cbn. reflexivity.
    + split; [|split].
      * rewrite !mapItem_compose; try reflexivity.
        intros x. now rewrite pageItem_id.
      * fold (awaits (l ++ [])). rewrite !awaits_app. cbn. rewrite !app_nil_r.
        now f_equal.
      * eexists (_ :: _ :: _). cbn. reflexivity.
Qed.

Lemma loopItem_id w rest x : id (loopItem w rest x) = id x.
Proof.
  revert x. induction rest as [|fs rest IH]; intros x; [reflexivity|].
  unfold loopItem in *. simpl. rewrite IH. unfold visitItem.
  destruct (isPending fs && JS.eqb (id x) (id fs)); [apply fileItem_id | reflexivity].
Qed.

Lemma loopItem_file w rest x : file (loopItem w rest x) = file x.
Proof.
  revert x. induction rest as [|fs rest IH]; intros x; [reflexivity|].
  unfold loopItem in *. simpl. rewrite IH. unfold visitItem.
  destruct (isPending fs && JS.eqb (id x) (id fs)); [apply fileItem_file | reflexivity].
Qed.

(** The whole loop, run on any local queue. *)
Lemma forOf_run w rest : forall pq,
  snd (forOf w rest pq) = map (loopItem w rest) pq
  /\ awaits (fst (forOf w rest pq))
     = flat_map (fun fs => fileCalls w (file fs)) (filter isPending rest).
Proof.
  induction rest as [|fs rest IH]; intros pq.
  - simpl. now rewrite map_id.
  - cbn [forOf filter]. destruct (isPending fs) eqn:P; cbn [negb].
    + destruct (processFile_run w fs pq) as (H1 & H2 & _).
      destruct (processFile w fs pq) as [l1 pq1]. cbn [fst snd] in H1, H2.
      destruct (IH pq1) as [I1 I2].
      destruct (forOf w rest pq1) as [l2 pq2]. cbn [fst snd] in *.
      subst pq1 pq2. split.
      * unfold mapItem. rewrite map_map. apply map_ext. intros x.
        unfold loopItem at 2. simpl. unfold visitItem at 2. now rewrite P.
      * now rewrite awaits_app, H2, I2.
    + destruct (IH pq) as [I1 I2]. split; [|assumption].
      rewrite I1. apply map_ext. intros x.
      unfold loopItem at 2. simpl. unfold visitItem at 2. now rewrite P.
Qed.

(** A record that no pending record of the captured array shares its id
    with is left alone. *)
Lemma loopItem_untouched w rest x :
  (forall fs, In fs rest -> isPending fs = true -> id fs <> id x) ->
  loopItem w rest x = x.
Proof.
  revert x. induction rest as [|fs rest IH]; intros x H; [reflexivity|].
  unfold loopItem in *. simpl.
  assert (E : visitItem w x fs = x).
  { unfold visitItem. destruct (isPending fs) eqn:P; [|reflexivity].
    destruct (JS.eqb (id x) (id fs)) eqn:Q; [|reflexivity].
    apply JS_eqb_eq in Q. exfalso. apply (H fs); simpl; auto. }
  rewrite E. apply IH. intros fs' Hin. apply H. now right.
Qed.

(** With distinct ids, each record is rewritten by its own pass only. *)
Lemma loopItem_own w q x :
  NoDup (map id q) -> In x q ->
  loopItem w q x = if isPending x then fileItem w (file x) x else x.
Proof.
  intros ND Hin. apply in_split in Hin. destruct Hin as (l1 & l2 & ->).
  rewrite map_app in ND. simpl in ND.
  assert (N1 : forall y, In y l1 -> id y <> id x).
  { intros y Hy E. apply NoDup_remove_2 in ND. apply ND.
    apply in_or_app. left. rewrite <- E. now apply in_map. }
  assert (N2 : forall y, In y l2 -> id y <> id x).
  { intros y Hy E. apply NoDup_remove_2 in ND. apply ND.
    apply in_or_app. right. rewrite <- E. now apply in_map. }
  unfold loopItem. rewrite fold_left_app. simpl.
  fold (loopItem w l1 x). rewrite loopItem_untouched by auto.
  unfold visitItem at 2. rewrite JS_eqb_refl, andb_true_r.
  match goal with |- fold_left _ _ ?y = _ => fold (loopItem w l2 y) end.
  apply loopItem_untouched. intros fs Hfs _.
  destruct (isPending x); [rewrite fileItem_id|]; auto.
Qed.

Lemma processedQueueOf_NoDup w q :
  NoDup (map id q) ->
  processedQueueOf w q
  = map (fun x => if isPending x then fileItem w (file x) x else x) q.
Proof.
  intros ND. unfold processedQueueOf.
  destruct (forOf_run w q q) as [H _]. rewrite H.
  apply map_ext_in. intros x Hx. now apply loopItem_own.
Qed.

(* ================================================================= *)
(** ** Every queue the loop publishes *)

Lemma logOk_weaken (P Q : list FileStatus -> Prop) l :
  (forall q, P q -> Q q) -> Forall (logOk P) l -> Forall (logOk Q) l.
Proof.
  intros H. apply Forall_impl. intros [b|x|q|ns|c]; simpl; auto.
Qed.

(** A Hoare rule for the page loop: a property of the local queue that
    every progress update keeps holds of every queue it publishes. *)
Lemma pageLoop_log (I : list FileStatus -> Prop) w fs n :
  (forall i q, I q -> I (mapItem (id fs) (markPage i n) q)) ->
  forall k i fullText pq, I pq ->
    I (snd (fst (pageLoop w fs n k i fullText pq)))
    /\ Forall (logOk I) (fst (fst (pageLoop w fs n k i fullText pq))).
Proof.
  intros Hstep. induction k as [|k IH]; intros i fullText pq Hpq.
  - simpl. auto.
  - cbn [pageLoop]. unfold bind, updateItem, setFileQueue, await, throw, ret.
    cbv beta.
    assert (H1 := Hstep i pq Hpq).
    destruct (getPage w (file fs) i); cbn.
    + split; [assumption | repeat constructor; assumption].
    + split; [assumption | repeat constructor; assumption].
    + destruct (generateContent w (file fs) i) as [e|text]; cbn.
      * split; [assumption | repeat constructor; assumption].
      * specialize (IH (S i) (fullText ++ JS.trim text ++ pageSeparator) _ H1).
        destruct (pageLoop w fs n k (S i) _ _) as [[l pq'] r]. cbn in *.
        destruct IH as [IH1 IH2]. split; [assumption|].
        repeat (constructor; [simpl; auto|]). assumption.
Qed.

Lemma pageLoop_zero w fs n i fullText pq :
  pageLoop w fs n 0 i fullText pq = ([], pq, inr fullText).
Proof. reflexivity. Qed.

(** The rule for one pass of the [for ... of] body: [I] holds while the
    file is being processed, [J] once its pass is over. *)
Lemma processFile_log (I J : list FileStatus -> Prop) w fs pq :
  I (mapItem (id fs) markProcessing pq) ->
  (forall n i q, getDocument w (file fs) = inr n -> n <> 0 ->
                 I q -> I (mapItem (id fs) (markPage i n) q)) ->
  (forall fullText q, I q -> J (mapItem (id fs) (markSuccess fullText) q)) ->
  (forall msg q, I q -> J (mapItem (id fs) (markError msg) q)) ->
  J (snd (processFile w fs pq))
  /\ Forall (logOk (fun q => I q \/ J q)) (fst (processFile w fs pq)).
Proof.
  intros H0 Hpage Hok Herr.
  unfold processFile, tryCatchFinally, tryBody, catchHandler.
  unfold bind, await, updateItem. cbv beta.
  destruct (getDocument w (file fs)) as [e|n] eqn:D.
  - cbn. split; [now apply Herr|].
    repeat (constructor; [simpl; auto|]). constructor.
  - assert (HL : I (snd (fst (pageLoop w fs n n 1 [] (mapItem (id fs) markProcessing pq))))
                 /\ Forall (logOk I)
                      (fst (fst (pageLoop w fs n n 1 [] (mapItem (id fs) markProcessing pq))))).
    { destruct n as [|n'].
      - simpl. auto.
      - apply pageLoop_log; [|assumption].
        intros i q. now apply (Hpage (S n')). }
    destruct (pageLoop w fs n n 1 [] (mapItem (id fs) markProcessing pq))
      as [[l pq1] r].
    cbn [fst snd] in HL. destruct HL as [HL1 HL2].
    assert (HL3 : Forall (logOk (fun q => I q \/ J q)) l)
      by (revert HL2; apply logOk_weaken; auto).
    destruct r as [e|fullText]; cbn.
    + split; [now apply Herr|].
      constructor; [simpl; auto|]. constructor; [simpl; auto|].
      apply Forall_app. split; [assumption|].
      constructor; [simpl; right; now apply Herr | constructor].
    + split; [now apply Hok|].
      constructor; [simpl; auto|]. constructor; [simpl; auto|].
      rewrite app_nil_r. apply Forall_app. split; [assumption|].
      constructor; [simpl; right; now apply Hok | constructor].
Qed.

(** The rule for the whole loop, for a property [P] of the records still
    to visit and of the local queue, and a property [S] of the queues
    published. *)
Lemma forOf_log (P : list FileStatus -> list FileStatus -> Prop)
    (S : list FileStatus -> Prop) w :
  (forall fs rest pq, isPending fs = false -> P (fs :: rest) pq -> P rest pq) ->
  (forall fs rest pq, isPending fs = true -> P (fs :: rest) pq ->
     P rest (snd (processFile w fs pq))
     /\ Forall (logOk S) (fst (processFile w fs pq))) ->
  forall rest pq, P rest pq ->
    P [] (snd (forOf w rest pq)) /\ Forall (logOk S) (fst (forOf w rest pq)).
Proof.
  intros Hskip Hbody. induction rest as [|fs rest IH]; intros pq HP.
  - simpl. auto.
  - cbn [forOf]. destruct (isPending fs) eqn:E; cbn [negb].
    + destruct (Hbody fs rest pq E HP) as [B1 B2].
      destruct (processFile w fs pq) as [l1 pq1]. cbn [fst snd] in *.
      destruct (IH pq1 B1) as [I1 I2].
      destruct (forOf w rest pq1) as [l2 pq2]. cbn [fst snd] in *.
      split; [assumption | apply Forall_app; auto].
    + apply IH. now apply (Hskip fs).
Qed.

(** ** From actions to states *)

Lemma runActions_app l1 l2 st :
  runActions (l1 ++ l2) st = runActions l2 (runActions l1 st).
Proof. apply fold_left_app. Qed.

Lemma withQueue_withQueue q q' st : withQueue q (withQueue q' st) = withQueue q st.
Proof. reflexivity. Qed.

Lemma withQueue_same st : withQueue (fileQueue st) st = st.
Proof. now destruct st. Qed.

(** The actions of the loop touch nothing but the queue. *)
Lemma runActions_logOk (P : list FileStatus -> Prop) l : forall st,
  Forall (logOk P) l ->
  exists q, runActions l st = withQueue q st.
Proof.
  induction l as [|a l IH]; intros st H.
  - exists (fileQueue st). simpl. now rewrite withQueue_same.
  - inversion H as [|? ? Ha Hl]; subst.
    destruct a as [b|x|q|ns|c]; simpl in Ha; try contradiction.
    + destruct (IH (withQueue q st) Hl) as [q' E]. exists q'. simpl.
      fold (withQueue q st). now rewrite E.
    + destruct (IH st Hl) as [q' E]. exists q'. simpl. assumption.
Qed.

Lemma forOf_queueOnly w rest pq :
  Forall (logOk (fun _ => True)) (fst (forOf w rest pq)).
Proof.
  apply (@forOf_log (fun _ _ => True) (fun _ => True) w); auto.
  intros fs rest' pq' _ _. split; [exact I|].
  destruct (@processFile_log (fun _ => True) (fun _ => True) w fs pq') as [_ H];
    auto.
  revert H. apply logOk_weaken. auto.
Qed.

Lemma forOf_ends w rest : forall pq st,
  fileQueue st = pq ->
  runActions (fst (forOf w rest pq)) st = withQueue (snd (forOf w rest pq)) st.
Proof.
  induction rest as [|fs rest IH]; intros pq st E.
  - simpl. subst. now rewrite withQueue_same.
  - cbn [forOf]. destruct (isPending fs) eqn:P; cbn [negb]; [|now apply IH].
    destruct (processFile_run w fs pq) as (_ & _ & l' & Hl).
    destruct (@processFile_log (fun _ => True) (fun _ => True) w fs pq)
      as [_ HQ]; auto.
    destruct (processFile w fs pq) as [l1 pq1]. cbn [fst snd] in *.
    specialize (IH pq1). destruct (forOf w rest pq1) as [l2 pq2].
    cbn [fst snd] in *. rewrite runActions_app.
    assert (E1 : runActions l1 st = withQueue pq1 st).
    { subst l1. apply Forall_app in HQ. destruct HQ as [HQ _].
      rewrite runActions_app.
      destruct (runActions_logOk st HQ) as [q' Eq]. rewrite Eq. reflexivity. }
    rewrite E1, IH by reflexivity. reflexivity.
Qed.

Lemma updateHistory_fields ns st :
  fileQueue (updateHistory ns st) = fileQueue st
  /\ batchState (updateHistory ns st) = batchState st
  /\ history (updateHistory ns st) = newSet (history st ++ ns).
Proof.
  unfold updateHistory, setItem. destruct (failing (localStorage st)); auto.
Qed.

(** The state a whole run ends in, when some record is pending. *)
Lemma runBatch_pending w st :
  existsb isPending (fileQueue st) = true ->
  let pq := processedQueueOf w (fileQueue st) in
  fileQueue (runBatch w st) = pq
  /\ batchState (runBatch w st) = BatchDone
  /\ history (runBatch w st)
     = if 0 <? List.length (filter isSuccess pq)
       then newSet (history st ++ map (fun f => name (file f)) (filter isSuccess pq))
       else history st.
Proof.
  intros HP pq. unfold runBatch, processBatch. rewrite HP. cbn [negb].
  subst pq. unfold processedQueueOf.
  pose proof (@forOf_ends w (fileQueue st) (fileQueue st)) as HE.
  destruct (forOf w (fileQueue st) (fileQueue st)) as [l pq]. cbn [fst snd] in *.
  rewrite !runActions_app.
  set (st1 := runActions [SetBatchState BatchProcessing; SetActiveAccordion None] st).
  rewrite (HE st1) by reflexivity.
  destruct (0 <? List.length (filter isSuccess pq)).
  - destruct (updateHistory_fields
                (map (fun f => name (file f)) (filter isSuccess pq))
                (withQueue pq st1)) as (F1 & F2 & F3).
    unfold runActions. cbn [fold_left applyAction fileQueue batchState history].
    rewrite F1, F3. auto.
  - cbn. auto.
Qed.

Lemma runBatch_idle w st :
  existsb isPending (fileQueue st) = false -> runBatch w st = st.
Proof.
  intros H. unfold runBatch, processBatch. now rewrite H.
Qed.

(* ================================================================= *)
(** ** The record of a file after its pass *)

Lemma fileItem_status w f x :
  status (fileItem w f x)
  = match fileResult w f with inl _ => Error | inr _ => Success end.
Proof.
  unfold fileItem, fileResult. destruct (getDocument w f) as [e|n]; [reflexivity|].
  now destruct (pageResult w f n 1 []).
Qed.

Lemma fileItem_message w f x :
  message (fileItem w f x)
  = match fileResult w f with
    | inl e => errorMessageOf e
    | inr _ => doneMessage
    end.
Proof.
  unfold fileItem, fileResult. destruct (getDocument w f) as [e|n]; [reflexivity|].
  now destruct (pageResult w f n 1 []).
Qed.

Lemma fileItem_text w f x :
  extractedText (fileItem w f x)
  = match fileResult w f with
    | inl _ => extractedText x
    | inr fullText => Some (JS.trim fullText)
    end.
Proof.
  unfold fileItem, fileResult. destruct (getDocument w f) as [e|n]; [reflexivity|].
  destruct (pageResult w f n 1 []); simpl; [|reflexivity].
  now rewrite pageItem_text.
Qed.

Lemma lookupId_map (F : FileStatus -> FileStatus) q r :
  (forall x, id (F x) = id x) ->
  NoDup (map id q) -> In r q ->
  lookupId (id r) (map F q) = Some (F r).
Proof.
  intros HF. unfold lookupId. induction q as [|y q IH]; intros ND Hin; [contradiction|].
  simpl in *. inversion ND as [|? ? Hn ND']; subst.
  destruct Hin as [->|Hin].
  - now rewrite HF, JS_eqb_refl.
  - destruct (JS.eqb (id (F y)) (id r)) eqn:E.
    + apply JS_eqb_eq in E. rewrite HF in E. exfalso. apply Hn.
      rewrite E. now apply in_map.
    + now apply IH.
Qed.

Lemma rewritten_id w x :
  id (if isPending x then fileItem w (file x) x else x) = id x.
Proof. destruct (isPending x); [apply fileItem_id | reflexivity]. Qed.

Lemma existsb_isPending q r :
  In r q -> status r = Pending -> existsb isPending q = true.
Proof.
  intros Hin Hs. apply existsb_exists. exists r. split; [assumption|].
  now apply isPending_true.
Qed.

(** With distinct ids, a whole run leaves each pending record as its own
    pass made it, and every other record as it was. *)
Lemma runBatch_record w st r :
  NoDup (map id (fileQueue st)) -> In r (fileQueue st) ->
  existsb isPending (fileQueue st) = true ->
  lookupId (id r) (fileQueue (runBatch w st))
  = Some (if isPending r then fileItem w (file r) r else r).
Proof.
  intros ND Hin HP.
  destruct (runBatch_pending w st HP) as (Hq & _ & _). rewrite Hq.
  rewrite processedQueueOf_NoDup by assumption.
  apply (lookupId_map (fun x => if isPending x then fileItem w (file x) x else x));
    auto using rewritten_id.
Qed.

(* ================================================================= *)
(** ** C1: the two-page scenario *)

(** C1, as stated, fails: for the file "A.pdf" with two pages recognised
    as "Hello" and "World", the record ends in status success, but the
    text stored is not the two pages joined by the separator: the
    separator is appended after the last page too, and the final trim
    removes its line breaks only. *)
Lemma C1_joined_text_refuted :
  let st := runBatch helloWorld (handleFiles (Some [fileA]) (initialApp emptyStorage)) in
  map status (fileQueue st) = [Success]
  /\ map extractedText (fileQueue st) = [Some helloWorldStored]
  /\ map extractedText (fileQueue st) <> [Some helloWorldJoined].
Proof.
  vm_compute. repeat split. discriminate.
Qed.

(** C1, amended: for a pending file whose document has 2 pages, both
    rendered, recognised as "Hello" and "World", a run of [processBatch]
    over a queue with distinct ids stores as [extractedText] the text
    "Hello", separator, "World", separator, trimmed once: each page's
    trimmed text followed by the separator, so the stored text ends with
    the dashes of the last separator; the record's status is success. *)
Theorem C1_two_pages_stored_text w st r :
  NoDup (map id (fileQueue st)) ->
  In r (fileQueue st) ->
  status r = Pending ->
  getDocument w (file r) = inr 2 ->
  getPage w (file r) 1 = Rendered ->
  getPage w (file r) 2 = Rendered ->
  generateContent w (file r) 1 = inr (js"Hello") ->
  generateContent w (file r) 2 = inr (js"World") ->
  exists r',
    lookupId (id r) (fileQueue (runBatch w st)) = Some r'
    /\ status r' = Success
    /\ extractedText r'
       = Some (JS.trim (JS.trim (js"Hello") ++ pageSeparator
                        ++ JS.trim (js"World") ++ pageSeparator))
    /\ extractedText r' = Some helloWorldStored.
Proof.
  intros ND Hin HP D G1 G2 A1 A2.
  assert (R : fileResult w (file r)
              = inr (JS.trim (js"Hello") ++ pageSeparator
                     ++ JS.trim (js"World") ++ pageSeparator)).
  { unfold fileResult. rewrite D. simpl. now rewrite G1, A1, G2, A2. }
  exists (fileItem w (file r) r). split; [|split; [|split]].
  - rewrite runBatch_record; eauto using existsb_isPending.
    apply isPending_true in HP. now rewrite HP.
  - now rewrite fileItem_status, R.
  - now rewrite fileItem_text, R.
  - now rewrite fileItem_text, R.
Qed.

Lemma C1_two_pages_stored_text_witness :
  exists r',
    lookupId (fileId fileA)
      (fileQueue (runBatch helloWorld
                    (handleFiles (Some [fileA]) (initialApp emptyStorage))))
    = Some r'
    /\ status r' = Success
    /\ extractedText r'
       = Some (JS.trim (JS.trim (js"Hello") ++ pageSeparator
                        ++ JS.trim (js"World") ++ pageSeparator))
    /\ extractedText r' = Some helloWorldStored.
Proof.
  apply (@C1_two_pages_stored_text helloWorld
           (handleFiles (Some [fileA]) (initialApp emptyStorage))
           (newFileStatus fileA)).
  - simpl. repeat constructor. simpl. tauto.
  - simpl. now left.
  - reflexivity.
  - reflexivity.
  - reflexivity.
  - reflexivity.
  - reflexivity.
  - reflexivity.
Defined.

(* ================================================================= *)
(** ** C2: one failing file does not stop the batch *)

Lemma processBatch_documents w q :
  documentsOpened (processBatch w q) = map file (filter isPending q).
Proof.
  unfold processBatch. destruct (existsb isPending q) eqn:E; cbn [negb].
  - destruct (forOf_run w q q) as [_ H].
    destruct (forOf w q q) as [l pq]. cbn [fst snd] in H.
    rewrite !documentsOpened_app. cbn [documentsOpened flat_map app].
    assert (D : documentsOpened l = map file (filter isPending q)).
    { rewrite documentsOpened_awaits, H. clear.
      induction (filter isPending q) as [|x xs IH]; [reflexivity|].
      cbn [flat_map map].
      rewrite documentsOf_app, documentsOf_fileCalls, IH. reflexivity. }
    rewrite D.
    destruct (0 <? List.length (filter isSuccess pq)); cbn; now rewrite app_nil_r.
  - simpl. symmetry.
    induction q as [|x q IH]; [reflexivity|].
    simpl in E. apply orb_false_iff in E. destruct E as [E1 E2].
    simpl. rewrite E1. now apply IH.
Qed.

(** Isolation, for the queues whose ids are distinct: take such a queue
    in which the [try] block of
    exactly one pending file, [bad], throws (its document cannot be
    opened, a page cannot be rendered, or the recognition call fails)
    while the blocks of all other pending files complete.  After
    [processBatch], the record of [bad] has status error and the message
    of the caught error; every other pending record has status success;
    records that were not pending are as they were; the loop has opened
    the document of every pending file, in order, the ones after [bad]
    included; and the batch state is done. *)
Theorem C2_failure_is_isolated w st bad e :
  NoDup (map id (fileQueue st)) ->
  In bad (fileQueue st) ->
  status bad = Pending ->
  fileResult w (file bad) = inl e ->
  (forall r, In r (fileQueue st) -> status r = Pending -> r <> bad ->
             exists fullText, fileResult w (file r) = inr fullText) ->
  (exists bad',
      lookupId (id bad) (fileQueue (runBatch w st)) = Some bad'
      /\ status bad' = Error /\ message bad' = errorMessageOf e)
  /\ (forall r, In r (fileQueue st) -> status r = Pending -> r <> bad ->
        exists r', lookupId (id r) (fileQueue (runBatch w st)) = Some r'
                   /\ status r' = Success)
  /\ (forall r, In r (fileQueue st) -> status r <> Pending ->
        lookupId (id r) (fileQueue (runBatch w st)) = Some r)
  /\ documentsOpened (processBatch w (fileQueue st))
     = map file (filter isPending (fileQueue st))
  /\ batchState (runBatch w st) = BatchDone.
Proof.
  intros ND Hbad Pbad Rbad Hothers.
  assert (HP : existsb isPending (fileQueue st) = true)
    by eauto using existsb_isPending.
  split; [|split; [|split; [|split]]].
  - exists (fileItem w (file bad) bad). split; [|split].
    + rewrite runBatch_record by assumption.
      apply isPending_true in Pbad. now rewrite Pbad.
    + now rewrite fileItem_status, Rbad.
    + now rewrite fileItem_message, Rbad.
  - intros r Hin Pr Hne. destruct (Hothers r Hin Pr Hne) as [t Ht].
    exists (fileItem w (file r) r). split.
    + rewrite runBatch_record by assumption.
      apply isPending_true in Pr. now rewrite Pr.
    + now rewrite fileItem_status, Ht.
  - intros r Hin Pr. rewrite runBatch_record by assumption.
    destruct (isPending r) eqn:E; [|reflexivity].
    apply isPending_true in E. contradiction.
  - apply processBatch_documents.
  - now destruct (runBatch_pending w st HP) as (_ & H & _).
Qed.

Lemma C2_failure_is_isolated_witness :
  let st := handleFiles (Some [fileA; fileB; mkFile (js"C.pdf") 5 6 pdfType 3])
              (initialApp emptyStorage) in
  map status (fileQueue (runBatch brokenB st)) = [Success; Error; Success]
  /\ (exists bad',
        lookupId (fileId fileB) (fileQueue (runBatch brokenB st)) = Some bad'
        /\ status bad' = Error
        /\ message bad' = js"Invalid PDF structure.")
  /\ batchState (runBatch brokenB st) = BatchDone.
Proof.
  intros st.
  destruct (@C2_failure_is_isolated brokenB st (newFileStatus fileB)
              (ThrownError (js"Invalid PDF structure."))) as (H1 & _ & _ & _ & H5).
  - simpl. repeat constructor; simpl; intuition discriminate.
  - simpl. tauto.
  - reflexivity.
  - reflexivity.
  - intros r Hin _ Hne. simpl in Hin.
    destruct Hin as [<-|[<-|[<-|[]]]].
    + now exists (JS.trim (js"Hello") ++ pageSeparator).
    + now contradiction Hne.
    + now exists (JS.trim (js"Hello") ++ pageSeparator).
  - split; [reflexivity|]. split; assumption.
Defined.

(** C2, at the failing input: the queue holds the two records that
    [handleFiles] makes of two files with one name, timestamp and size
    selected together (C3), and only the document of the second file
    cannot be opened.  Every call for the first file succeeds, the loop
    goes on to the second file and the batch state ends done, but the
    updates go by id, so the failure of the second file rewrites both
    records: the record of the first file, which had reached success,
    ends in error as well. *)
Lemma C2_shared_id_spreads_failure :
  let st := handleFiles (Some [fileA; fileA']) (initialApp emptyStorage) in
  fileResult brokenHandle1 fileA = inr (js"Hello" ++ pageSeparator)
  /\ fileResult brokenHandle1 fileA'
     = inl (ThrownError (js"Invalid PDF structure."))
  /\ map file (fileQueue (runBatch brokenHandle1 st)) = [fileA; fileA']
  /\ map status (fileQueue (runBatch brokenHandle1 st)) = [Error; Error]
  /\ documentsOpened (processBatch brokenHandle1 (fileQueue st)) = [fileA; fileA']
  /\ batchState (runBatch brokenHandle1 st) = BatchDone.
Proof.
  cbn zeta. repeat split; reflexivity.
Qed.

(* ================================================================= *)
(** ** C3: one record per id *)

Lemma NoDup_map_filter {A B} (f : A -> B) (p : A -> bool) l :
  NoDup (map f l) -> NoDup (map f (filter p l)).
Proof.
  induction l as [|x l IH]; intros H; [constructor|].
  simpl in *. inversion H as [|? ? Hn H']; subst.
  destruct (p x); [|now apply IH].
  simpl. constructor; [|now apply IH].
  intros Hin. apply Hn. apply in_map_iff in Hin. destruct Hin as (y & E & Hy).
  apply filter_In in Hy. rewrite <- E. apply in_map. tauto.
Qed.

Lemma map_id_newFileStatus files : map id (map newFileStatus files) = map fileId files.
Proof. rewrite map_map. reflexivity. Qed.

(** Files that are already queued are filtered out of a later selection:
    no record of the selection takes an id the queue already has, and
    the records of the queue stay where they were. *)
Lemma handleFiles_skips_queued files st :
  exists added,
    fileQueue (handleFiles (Some files) st) = fileQueue st ++ added
    /\ forall x, In x added -> ~ In (id x) (map id (fileQueue st)).
Proof.
  unfold handleFiles. cbn [fileQueue]. eexists. split; [reflexivity|].
  intros x Hx. apply filter_In in Hx. destruct Hx as [_ Hx].
  apply negb_true_iff, Set_has_false in Hx.
  now rewrite newSet_In in Hx.
Qed.

(** A selection whose PDF files have distinct ids keeps the ids of the
    queue distinct. *)
Lemma handleFiles_NoDup files st :
  distinctSelection (CmdAddFiles files) ->
  NoDup (map id (fileQueue st)) ->
  NoDup (map id (fileQueue (handleFiles files st))).
Proof.
  destruct files as [files|]; [|auto].
  intros HD ND. simpl in HD. unfold handleFiles. cbn [fileQueue].
  rewrite map_app. apply NoDup_app.
  - assumption.
  - apply NoDup_map_filter. now rewrite map_id_newFileStatus.
  - intros a Ha Hb. apply in_map_iff in Hb. destruct Hb as (x & <- & Hx).
    apply filter_In in Hx. destruct Hx as [_ Hx].
    apply negb_true_iff, Set_has_false in Hx.
    rewrite newSet_In in Hx. contradiction.
Qed.

(** C3, at the failing input: two files with the same name, timestamp
    and size, selected together into an empty queue, are both queued.
    The selection is filtered against the ids of the queue as it was
    before the selection, not against the selection itself, so the queue
    holds two records with one id. *)
Lemma C3_same_selection_queued_twice :
  let st := handleFiles (Some [fileA; fileA']) (initialApp emptyStorage) in
  fileId fileA' = fileId fileA
  /\ map id (fileQueue st) = [fileId fileA; fileId fileA]
  /\ List.length (fileQueue st) = 2
  /\ ~ NoDup (map id (fileQueue st)).
Proof.
  cbn zeta. repeat split.
  intros H. vm_compute in H. inversion H as [|? ? Hn _]; subst.
  apply Hn. now left.
Qed.

(** Selected in two events, the same two files give one record. *)
Example different_selections_queued_once :
  let st := handleFiles (Some [fileA'])
              (handleFiles (Some [fileA]) (initialApp emptyStorage)) in
  map file (fileQueue st) = [fileA].
Proof. reflexivity. Qed.

(** The updates of [processBatch] go by id: two records with one id are
    rewritten together, so the failure of the second file object turns
    the record of the first, which had succeeded, to error. *)
Example shared_id_shared_updates :
  let st := handleFiles (Some [fileA; fileA']) (initialApp emptyStorage) in
  map status (fileQueue (runBatch brokenHandle1 st)) = [Error; Error]
  /\ map extractedText (fileQueue (runBatch brokenHandle1 st))
     = [Some (js"Hello" ++ [10; 10; 45; 45; 45]%N);
        Some (js"Hello" ++ [10; 10; 45; 45; 45]%N)].
Proof. vm_compute. split; reflexivity. Qed.

(* ================================================================= *)
(** ** C4: order of the visits *)

Lemma scheduleDocuments_interleaving l s :
  Interleaving l s -> scheduleDocuments s = documentsOpened l.
Proof.
  induction 1 as [|a l s _ IH|files l s _ IH].
  - reflexivity.
  - change (scheduleDocuments (Own a :: s))
      with (documentsOpened [a] ++ scheduleDocuments s).
    change (documentsOpened (a :: l))
      with (documentsOpened ([a] ++ l)).
    now rewrite documentsOpened_app, IH.
  - exact IH.
Qed.

(** C4: [processBatch] opens the documents of the pending records of the
    array it captured, in the order of that array, and of no other
    record.  This stays so when [handleFiles] runs while the batch is
    suspended: whatever is queued in between, the documents opened are
    those of the records pending in the captured array. *)
Theorem C4_visits_in_queue_order w (q : list FileStatus) :
  documentsOpened (processBatch w q) = map file (filter isPending q)
  /\ (forall f, In f (documentsOpened (processBatch w q)) ->
        exists r, In r q /\ status r = Pending /\ file r = f)
  /\ (forall s, Interleaving (processBatch w q) s ->
        scheduleDocuments s = map file (filter isPending q)).
Proof.
  split; [|split].
  - apply processBatch_documents.
  - intros f Hf. rewrite processBatch_documents in Hf.
    apply in_map_iff in Hf. destruct Hf as (r & E & Hr).
    apply filter_In in Hr. destruct Hr as [Hr P].
    exists r. repeat split; auto. now apply isPending_true.
  - intros s Hs. rewrite (scheduleDocuments_interleaving Hs).
    apply processBatch_documents.
Qed.

(** A record queued while the batch is suspended is not visited. *)
Example added_mid_run_not_visited :
  let q := fileQueue (handleFiles (Some [fileA]) (initialApp emptyStorage)) in
  exists s,
    Interleaving (processBatch onePage q) s
    /\ In (AddFiles (Some [fileB])) s
    /\ scheduleDocuments s = [fileA].
Proof.
  cbn zeta.
  destruct (processBatch onePage
              (fileQueue (handleFiles (Some [fileA]) (initialApp emptyStorage))))
    as [|a l] eqn:E; [discriminate|].
  exists (Own a :: AddFiles (Some [fileB]) :: map Own l).
  assert (HI : Interleaving (a :: l) (Own a :: AddFiles (Some [fileB]) :: map Own l)).
  { do 2 constructor. clear. induction l; simpl; constructor; assumption. }
  split; [assumption|]. split; [simpl; tauto|].
  rewrite (scheduleDocuments_interleaving HI), <- E.
  reflexivity.
Qed.

(* ================================================================= *)
(** ** C5: fields and status *)

Lemma in_mapItem fid g q y :
  In y (mapItem fid g q) ->
  exists x, In x q /\ y = if JS.eqb (id x) fid then g x else x.
Proof.
  unfold mapItem. intros H. apply in_map_iff in H.
  destruct H as (x & E & Hx). exists x. split; [assumption | now symmetry].
Qed.

(** Pointwise reasoning on an update by id. *)
Lemma mapItem_pointwise (Q Q' : FileStatus -> Prop) fid g q :
  (forall x, In x q -> Q x) ->
  (forall x, Q x -> id x = fid -> Q' (g x)) ->
  (forall x, Q x -> id x <> fid -> Q' x) ->
  forall y, In y (mapItem fid g q) -> Q' y.
Proof.
  intros HQ Hg Hn y Hy. apply in_mapItem in Hy. destruct Hy as (x & Hx & ->).
  destruct (JS.eqb (id x) fid) eqn:E.
  - apply JS_eqb_eq in E. auto.
  - apply JS_eqb_neq in E. auto.
Qed.

Lemma NoDup_map_eq {A B} (f : A -> B) l x y :
  NoDup (map f l) -> In x l -> In y l -> f x = f y -> x = y.
Proof.
  induction l as [|a l IH]; intros ND Hx Hy E; [contradiction|].
  simpl in *. inversion ND as [|? ? Hn ND']; subst.
  destruct Hx as [->|Hx], Hy as [->|Hy]; auto.
  - exfalso. apply Hn. rewrite E. now apply in_map.
  - exfalso. apply Hn. rewrite <- E. now apply in_map.
Qed.

Section BatchInvariant.

Variable w : World.

Lemma recordInv_pending_text x :
  recordInv x -> status x = Pending -> extractedText x = None.
Proof.
  intros [H _] P. destruct (extractedText x) eqn:E; [|reflexivity].
  unfold textOnlyOnSuccess in H. rewrite E in H.
  assert (status x = Success) by (apply H; discriminate). congruence.
Qed.

Lemma waiting_markProcessing fs rest x :
  ~ In (id fs) (map id rest) -> isPending fs = true ->
  waiting (fs :: rest) x -> id x = id fs -> during fs rest (markProcessing x).
Proof.
  intros Hn P [Hinv Hw] E.
  assert (Px : status x = Pending) by (apply (Hw fs); simpl; auto).
  assert (Tx := recordInv_pending_text Hinv Px).
  split; [|split].
  - split.
    + intros H. simpl in H. contradiction.
    + intros H. simpl in H. discriminate.
  - intros _. simpl. auto.
  - intros fs' Hin _ E'. simpl in E'. exfalso. apply Hn.
    rewrite <- E, E'. now apply in_map.
Qed.

Lemma waiting_other fs rest x :
  waiting (fs :: rest) x -> id x <> id fs -> during fs rest x.
Proof.
  intros [Hinv Hw] E. split; [assumption|]. split; [contradiction|].
  intros fs' Hin. apply Hw. now right.
Qed.

Lemma during_markPage fs rest i n x :
  ~ In (id fs) (map id rest) ->
  during fs rest x -> id x = id fs -> during fs rest (markPage i n x).
Proof.
  intros Hn (Hinv & Hd & Hw) E. destruct (Hd E) as [T S].
  split; [|split].
  - split.
    + intros H. simpl in H. contradiction.
    + intros H. simpl in H. congruence.
  - intros _. simpl. auto.
  - intros fs' Hin _ E'. simpl in E'. exfalso. apply Hn.
    rewrite <- E, E'. now apply in_map.
Qed.

Lemma during_markSuccess fs rest fullText x :
  ~ In (id fs) (map id rest) ->
  during fs rest x -> id x = id fs -> waiting rest (markSuccess fullText x).
Proof.
  intros Hn (Hinv & Hd & Hw) E. split.
  - split.
    + intros _. reflexivity.
    + intros H. simpl in H. discriminate.
  - intros fs' Hin _ E'. simpl in E'. exfalso. apply Hn.
    rewrite <- E, E'. now apply in_map.
Qed.

Lemma during_markError fs rest msg x :
  ~ In (id fs) (map id rest) ->
  during fs rest x -> id x = id fs -> waiting rest (markError msg x).
Proof.
  intros Hn (Hinv & Hd & Hw) E. destruct (Hd E) as [T S]. split.
  - split.
    + intros H. simpl in H. contradiction.
    + intros H. simpl in H. discriminate.
  - intros fs' Hin _ E'. simpl in E'. exfalso. apply Hn.
    rewrite <- E, E'. now apply in_map.
Qed.

Lemma during_done fs rest x :
  during fs rest x -> id x <> id fs -> waiting rest x.
Proof. intros (Hinv & _ & Hw) _. now split. Qed.

(** Every queue the loop publishes has the ids of the captured array and
    satisfies the invariant. *)
Lemma forOf_recordInv (q0 : list FileStatus) :
  NoDup (map id q0) -> Forall recordInv q0 ->
  let ok q := map id q = map id q0 /\ Forall recordInv q in
  ok (snd (forOf w q0 q0)) /\ Forall (logOk ok) (fst (forOf w q0 q0)).
Proof.
  intros ND Hinv ok.
  pose (P := fun rest pq =>
    map id pq = map id q0 /\ NoDup (map id rest)
    /\ forall x, In x pq -> waiting rest x).
  assert (HP0 : P q0 q0).
  { split; [reflexivity|]. split; [assumption|].
    intros x Hx. split; [now apply (proj1 (Forall_forall _ _) Hinv)|].
    intros fs Hfs Pfs E.
    assert (x = fs) by (eapply NoDup_map_eq; eauto). subst.
    now apply isPending_true. }
  assert (Pok : forall rest pq, P rest pq -> ok pq).
  { intros rest pq (E & _ & H). split; [assumption|].
    apply Forall_forall. intros x Hx. now destruct (H x Hx). }
  destruct (@forOf_log P ok w) with (rest := q0) (pq := q0) as [F1 F2];
    [| | assumption | split; [now apply (Pok [])|assumption]].
  - intros fs rest pq _ (E & NDr & H). split; [assumption|].
    split; [now inversion NDr|].
    intros x Hx. destruct (H x Hx) as [Hi Hw]. split; [assumption|].
    intros fs' Hin. apply Hw. now right.
  - intros fs rest pq Pfs (E & NDr & H).
    simpl in NDr. inversion NDr as [|? ? Hn NDr']; subst.
    pose (I := fun q => map id q = map id q0
                        /\ forall x, In x q -> during fs rest x).
    destruct (@processFile_log I (P rest) w fs pq) as [J1 J2].
    + split.
      * now rewrite mapItem_ids.
      * apply (@mapItem_pointwise (waiting (fs :: rest))); auto.
        -- intros x Hx E'. now apply waiting_markProcessing.
        -- intros x Hx E'. now apply waiting_other.
    + intros n i q _ _ [E' Hq]. split.
      * now rewrite mapItem_ids.
      * apply (@mapItem_pointwise (during fs rest)); auto.
        intros x Hx Ex. now apply during_markPage.
    + intros fullText q [E' Hq]. split; [now rewrite mapItem_ids|].
      split; [assumption|].
      apply (@mapItem_pointwise (during fs rest)); auto.
      * intros x Hx Ex. eapply during_markSuccess; eauto.
      * intros x Hx Ex. now apply (during_done Hx).
    + intros msg q [E' Hq]. split; [now rewrite mapItem_ids|].
      split; [assumption|].
      apply (@mapItem_pointwise (during fs rest)); auto.
      * intros x Hx Ex. eapply during_markError; eauto.
      * intros x Hx Ex. now apply (during_done Hx).
    + split; [assumption|]. revert J2. apply logOk_weaken.
      intros q [[E' Hq]|HPq]; [|now apply (Pok rest)].
      split; [assumption|]. apply Forall_forall. intros x Hx.
      now destruct (Hq x Hx).
Qed.

End BatchInvariant.

Lemma logOk_snapshots (S : list FileStatus -> Prop) l :
  Forall (logOk S) l -> Forall S (snapshots l).
Proof.
  induction 1 as [|a l Ha _ IH]; [constructor|].
  destruct a as [b|x|q|ns|c]; simpl in *; auto.
Qed.

Lemma processBatch_snapshots w q :
  snapshots (processBatch w q)
  = if existsb isPending q then snapshots (fst (forOf w q q)) else [].
Proof.
  unfold processBatch. destruct (existsb isPending q); cbn [negb]; [|reflexivity].
  destruct (forOf w q q) as [l pq]. cbn [fst].
  rewrite !snapshots_app. cbn [snapshots flat_map app].
  destruct (0 <? List.length (filter isSuccess pq)); cbn; now rewrite app_nil_r.
Qed.

(** The queue of a state passed through is the queue at the start or one
    that was published. *)
Lemma statesOf_queue l : forall st st',
  In st' (statesOf l st) ->
  fileQueue st' = fileQueue st \/ In (fileQueue st') (snapshots l).
Proof.
  induction l as [|a l IH]; intros st st' H; simpl in H.
  - destruct H as [<-|[]]. now left.
  - destruct H as [<-|H]; [now left|].
    apply IH in H.
    destruct a as [b|x|q|ns|c]; simpl in *; auto.
    + destruct H as [H|H]; auto.
    + destruct (updateHistory_fields ns st) as (E & _ & _).
      rewrite E in H. assumption.
Qed.

Lemma statesOf_last l : forall st, In (runActions l st) (statesOf l st).
Proof.
  induction l as [|a l IH]; intros st; simpl; [now left|].
  right. apply IH.
Qed.

(** The invariant holds of every state a run passes through. *)
Lemma processBatch_queueInv w st st' :
  queueInv (fileQueue st) ->
  In st' (statesOf (processBatch w (fileQueue st)) st) ->
  queueInv (fileQueue st').
Proof.
  intros [ND Hinv] H. apply statesOf_queue in H. destruct H as [->|H].
  - now split.
  - rewrite processBatch_snapshots in H.
    destruct (existsb isPending (fileQueue st)); [|contradiction].
    destruct (forOf_recordInv w ND Hinv) as [_ HL].
    apply logOk_snapshots in HL.
    destruct (proj1 (Forall_forall _ _) HL _ H) as [E Hq].
    split; [now rewrite E | assumption].
Qed.

Lemma recordInv_newFileStatus f : recordInv (newFileStatus f).
Proof.
  split.
  - intros H. simpl in H. contradiction.
  - intros _. reflexivity.
Qed.

Lemma handleExportAll_state st : fst (handleExportAll st) = st.
Proof.
  unfold handleExportAll.
  now destruct (List.length (filter isSuccess (fileQueue st)) =? 0).
Qed.

Lemma exec_queueInv st c :
  distinctSelection c -> queueInv (fileQueue st) ->
  forall st', In st' (trace st c) -> queueInv (fileQueue st').
Proof.
  intros HD HQ st' H.
  destruct c as [files| i | w | | | ].
  - simpl in H. destruct H as [<-|[<-|[]]]; [assumption|].
    destruct HQ as [ND Hinv]. split; [now apply handleFiles_NoDup|].
    destruct files as [files|]; [|assumption].
    unfold handleFiles. cbn [fileQueue]. apply Forall_app. split; [assumption|].
    apply Forall_forall. intros x Hx. apply filter_In in Hx.
    destruct Hx as [Hx _]. apply in_map_iff in Hx.
    destruct Hx as (f & <- & _). apply recordInv_newFileStatus.
  - simpl in H. destruct H as [<-|[<-|[]]]; [assumption|].
    destruct HQ as [ND Hinv]. simpl. split.
    + now apply NoDup_map_filter.
    + apply Forall_forall. intros x Hx. apply filter_In in Hx.
      now apply (proj1 (Forall_forall _ _) Hinv).
  - now apply (processBatch_queueInv w st).
  - simpl in H. destruct H as [<-|[<-|[]]]; [assumption|].
    simpl. split; constructor.
  - cbn [trace exec] in H. rewrite handleExportAll_state in H.
    simpl in H. destruct H as [<-|[<-|[]]]; assumption.
  - simpl in H. destruct H as [<-|[<-|[]]]; [assumption|].
    unfold clearHistory. now destruct (removeItem (localStorage st)).
Qed.

Lemma trace_last st c : In (exec st c) (trace st c).
Proof.
  destruct c; simpl; auto. apply statesOf_last.
Qed.

Lemma traceAll_queueInv cs : forall st,
  Forall distinctSelection cs -> queueInv (fileQueue st) ->
  forall st', In st' (traceAll st cs) -> queueInv (fileQueue st').
Proof.
  induction cs as [|c cs IH]; intros st HD HQ st' H; simpl in H.
  - destruct H as [<-|[]]. assumption.
  - inversion HD as [|? ? Hc Hcs]; subst.
    apply in_app_or in H. destruct H as [H|H].
    + now apply (exec_queueInv st c).
    + apply (IH (exec st c)); auto.
      apply (exec_queueInv st c); auto. apply trace_last.
Qed.

Lemma traceAll_last cs : forall st, In (fold_left exec cs st) (traceAll st cs).
Proof.
  induction cs as [|c cs IH]; intros st; simpl; [now left|].
  apply in_or_app. right. apply IH.
Qed.

Lemma pageItem_step w f n k i x :
  pageItem w f n (S k) i x
  = match getPage w f i with
    | Rendered =>
        match generateContent w f i with
        | inr _ => pageItem w f n k (S i) (markPage i n x)
        | inl _ => markPage i n x
        end
    | _ => markPage i n x
    end.
Proof. reflexivity. Qed.

Lemma pageResult_step w f k i fullText :
  pageResult w f (S k) i fullText
  = match getPage w f i with
    | RenderThrows e => inl e
    | ContextNull => inl (ThrownError canvasErrorMessage)
    | Rendered =>
        match generateContent w f i with
        | inl _ => inl (ThrownError apiErrorMessage)
        | inr text =>
            pageResult w f k (S i) (fullText ++ JS.trim text ++ pageSeparator)
        end
    end.
Proof. reflexivity. Qed.

(** A file all of whose pages went through keeps the progress of its
    last page. *)
Lemma pageItem_progress w f n k : forall i fullText t x,
  pageResult w f (S k) i fullText = inr t ->
  pageProgress (pageItem w f n (S k) i x) = Some (i + k, n).
Proof.
  induction k as [|k IH]; intros i fullText t x H.
  - simpl in *. destruct (getPage w f i); try discriminate.
    destruct (generateContent w f i); [discriminate|].
    simpl. now rewrite Nat.add_0_r.
  - rewrite pageResult_step in H. rewrite pageItem_step.
    destruct (getPage w f i); try discriminate.
    destruct (generateContent w f i) as [|text]; [discriminate|].
    rewrite (IH (S i) _ t _ H). f_equal. f_equal. lia.
Qed.

Lemma fileItem_progress w f n t x :
  getDocument w f = inr n -> 0 < n -> fileResult w f = inr t ->
  pageProgress (fileItem w f x) = Some (n, n).
Proof.
  intros D Hn R. unfold fileItem, fileResult in *. rewrite D in *.
  rewrite R. destruct n as [|k]; [lia|].
  change (pageProgress (pageItem w f (S k) (S k) 1 (markProcessing x))
          = Some (S k, S k)).
  now rewrite (pageItem_progress w f (S k) k 1 [] (markProcessing x) R).
Qed.

(** C5, as stated, fails: after a run over the one-page file "A.pdf" the
    record has status success and still carries the page progress
    (1, 1). *)
Lemma C5_progress_outlives_processing :
  let st := runBatch onePage (handleFiles (Some [fileA]) (initialApp emptyStorage)) in
  map status (fileQueue st) = [Success]
  /\ map pageProgress (fileQueue st) = [Some (1, 1)]
  /\ ~ Forall progressOnlyWhileProcessing (fileQueue st).
Proof.
  cbn zeta. split; [reflexivity|]. split; [reflexivity|].
  intros H. vm_compute in H. inversion H as [|? ? Hx _]; subst.
  discriminate Hx. discriminate.
Qed.

(** C5, amended: in every state reached from the initial state by
    adding files (selections without two PDF files of one id), removing
    files, running batches, resetting, exporting and clearing the
    history, the states a batch passes through included, the ids of the
    queue are distinct and every record satisfies: [extractedText] is
    present only when the status is success, and [pageProgress] is
    absent while the status is pending.  The progress is not cleared
    when a record leaves processing: a pending record whose document has
    [n >= 1] pages, all of which go through, ends a batch with status
    success and [pageProgress = (n, n)]. *)
Theorem C5_fields_follow_status ls cs :
  Forall distinctSelection cs ->
  (forall st, In st (traceAll (initialApp ls) cs) ->
     NoDup (map id (fileQueue st))
     /\ Forall textOnlyOnSuccess (fileQueue st)
     /\ Forall noProgressWhilePending (fileQueue st))
  /\ (forall w r n t,
        let st := fold_left exec cs (initialApp ls) in
        In r (fileQueue st) -> status r = Pending ->
        getDocument w (file r) = inr n -> 0 < n ->
        fileResult w (file r) = inr t ->
        exists r',
          lookupId (id r) (fileQueue (runBatch w st)) = Some r'
          /\ status r' = Success /\ pageProgress r' = Some (n, n)).
Proof.
  intros HD.
  assert (H0 : queueInv (fileQueue (initialApp ls))) by (split; constructor).
  split.
  - intros st Hst.
    destruct (@traceAll_queueInv cs _ HD H0 _ Hst) as [ND Hinv].
    split; [assumption|].
    split; apply Forall_forall; intros x Hx;
      now destruct (proj1 (Forall_forall _ _) Hinv x Hx).
  - intros w r n t st Hin P D Hn R.
    destruct (@traceAll_queueInv cs _ HD H0 _ (traceAll_last cs _)) as [ND _].
    exists (fileItem w (file r) r). split; [|split].
    + rewrite runBatch_record; eauto using existsb_isPending.
      apply isPending_true in P. now rewrite P.
    + now rewrite fileItem_status, R.
    + eapply fileItem_progress; eauto.
Qed.

Lemma C5_fields_follow_status_witness :
  let cs := [CmdAddFiles (Some [fileA; fileB]); CmdStartBatch brokenB;
             CmdRemoveFile (fileId fileB); CmdExportAll] in
  let st := fold_left exec cs (initialApp emptyStorage) in
  NoDup (map id (fileQueue st))
  /\ Forall textOnlyOnSuccess (fileQueue st)
  /\ Forall noProgressWhilePending (fileQueue st).
Proof.
  intros cs st.
  apply (proj1 (@C5_fields_follow_status emptyStorage cs
                  ltac:(repeat constructor; simpl; intuition discriminate))).
  apply traceAll_last.
Defined.

(* ================================================================= *)
(** ** C6: starting a batch during a batch *)

(** The state [midRun] is one a run passes through. *)
Example midRun_reached :
  In midRun
    (statesOf (processBatch onePage
                 (fileQueue (handleFiles (Some [fileA; fileB]) (initialApp emptyStorage))))
       (handleFiles (Some [fileA; fileB]) (initialApp emptyStorage))).
Proof. simpl. right. right. right. left. reflexivity. Qed.

(** C6: in every state in which the batch state is processing, the
    start-batch command is rejected.  The command is the click on the
    start button, the only caller of [processBatch]; the button is
    disabled while the batch state is processing, so the click performs
    no action, awaits no service, begins no pass over the queue and
    leaves the state as it is. *)
Theorem C6_start_rejected_while_processing w st :
  batchState st = BatchProcessing ->
  startDisabled st = true
  /\ clickStart w st = []
  /\ runActions (clickStart w st) st = st.
Proof.
  intros H. assert (D : startDisabled st = true).
  { unfold startDisabled. rewrite H. apply orb_true_r. }
  unfold clickStart. rewrite D. auto.
Qed.

Lemma C6_start_rejected_while_processing_witness :
  startDisabled midRun = true
  /\ clickStart onePage midRun = []
  /\ runActions (clickStart onePage midRun) midRun = midRun.
Proof.
  apply (@C6_start_rejected_while_processing onePage midRun). reflexivity.
Defined.

(* ================================================================= *)
(** ** C7: the history is a set *)

Lemma updateHistory_history ns st :
  history (updateHistory ns st) = newSet (history st ++ ns).
Proof. now destruct (updateHistory_fields ns st) as (_ & _ & H). Qed.

Lemma handleExportAll_history h st :
  snd (handleExportAll (withHistory h st)) = snd (handleExportAll st).
Proof.
  unfold handleExportAll, withHistory. cbn [fileQueue].
  now destruct (List.length (filter isSuccess (fileQueue st)) =? 0).
Qed.

(** After a run in which a record ended in success, the history has the
    name of its file exactly once. *)
Lemma runBatch_history_once w st r :
  existsb isPending (fileQueue st) = true ->
  In r (fileQueue (runBatch w st)) -> status r = Success ->
  count_occ JS.eq_dec (history (runBatch w st)) (name (file r)) = 1.
Proof.
  intros HP Hin Hs.
  destruct (runBatch_pending w st HP) as (Hq & _ & Hh).
  rewrite Hq in Hin.
  assert (HS : In r (filter isSuccess (processedQueueOf w (fileQueue st)))).
  { apply filter_In. split; [assumption | now apply isSuccess_true]. }
  rewrite Hh.
  destruct (filter isSuccess (processedQueueOf w (fileQueue st))) as [|y ys] eqn:E;
    [contradiction|].
  cbn [List.length Nat.ltb Nat.leb].
  apply NoDup_count_occ'; [apply newSet_NoDup|].
  apply newSet_In, in_or_app. right.
  apply (in_map (fun f => name (file f))) in HS. exact HS.
Qed.

(** C7: [updateHistory] leaves a history without repetitions that holds
    the old names and the new ones and nothing else; adding a name that
    a history without repetitions already has leaves it unchanged, and
    adding the same names twice is adding them once; a name successfully
    processed in two batches, whatever commands come in between, is in
    the history exactly once after the second (and after the first); and
    the export is the same whatever the history holds. *)
Theorem C7_history_is_a_set :
  (forall ns st,
      NoDup (history (updateHistory ns st))
      /\ forall x, In x (history (updateHistory ns st))
                   <-> In x (history st) \/ In x ns)
  /\ (forall n st, NoDup (history st) -> In n (history st) ->
        history (updateHistory [n] st) = history st)
  /\ (forall ns st,
        history (updateHistory ns (updateHistory ns st))
        = history (updateHistory ns st))
  /\ (forall w1 w2 st mid r1 r2,
        let st1 := runBatch w1 st in
        let st2 := fold_left exec mid st1 in
        let st3 := runBatch w2 st2 in
        existsb isPending (fileQueue st) = true ->
        In r1 (fileQueue st1) -> status r1 = Success ->
        existsb isPending (fileQueue st2) = true ->
        In r2 (fileQueue st3) -> status r2 = Success ->
        name (file r2) = name (file r1) ->
        count_occ JS.eq_dec (history st1) (name (file r1)) = 1
        /\ count_occ JS.eq_dec (history st3) (name (file r1)) = 1)
  /\ (forall h st,
        snd (handleExportAll (withHistory h st)) = snd (handleExportAll st)).
Proof.
  split; [|split; [|split; [|split]]].
  - intros ns st. rewrite updateHistory_history. split.
    + apply newSet_NoDup.
    + intros x. rewrite newSet_In, in_app_iff. tauto.
  - intros n st ND Hin. rewrite updateHistory_history, newSet_app.
    rewrite (newSet_NoDup_id ND). apply fold_Set_add_absorb.
    intros x [<-|[]]. assumption.
  - intros ns st. rewrite !updateHistory_history, newSet_app.
    rewrite (newSet_NoDup_id (newSet_NoDup _)).
    apply fold_Set_add_absorb. intros x Hx.
    apply newSet_In, in_or_app. now right.
  - intros w1 w2 st mid r1 r2 st1 st2 st3 P1 I1 S1 P2 I2 S2 E. split.
    + now apply runBatch_history_once.
    + rewrite <- E. now apply runBatch_history_once.
  - intros h st. apply handleExportAll_history.
Qed.

Lemma C7_history_is_a_set_witness :
  let st := handleFiles (Some [fileA]) (initialApp emptyStorage) in
  let st1 := runBatch onePage st in
  let st2 := fold_left exec [CmdReset; CmdAddFiles (Some [fileA'])] st1 in
  let st3 := runBatch onePage st2 in
  count_occ JS.eq_dec (history st1) (js"A.pdf") = 1
  /\ count_occ JS.eq_dec (history st3) (js"A.pdf") = 1.
Proof.
  cbn zeta.
  apply (proj1 (proj2 (proj2 (proj2 C7_history_is_a_set)))
           onePage onePage
           (handleFiles (Some [fileA]) (initialApp emptyStorage))
           [CmdReset; CmdAddFiles (Some [fileA'])]
           (fileItem onePage fileA (newFileStatus fileA))
           (fileItem onePage fileA' (newFileStatus fileA'))).
  - reflexivity.
  - left. reflexivity.
  - reflexivity.
  - reflexivity.
  - left. reflexivity.
  - reflexivity.
  - reflexivity.
Defined.

(* ================================================================= *)
(** ** C8: failures of the persistent store *)

(** Adding names never depends on the store: when the write throws, the
    failure is logged and the merged history is still the state. *)
Lemma updateHistory_best_effort ns st :
  failing (localStorage st) = true ->
  history (updateHistory ns st) = newSet (history st ++ ns)
  /\ localStorage (updateHistory ns st) = localStorage st
  /\ console (updateHistory ns st)
     = console st ++ [js"Failed to save history to localStorage:"].
Proof.
  intros H. unfold updateHistory, setItem. rewrite H. auto.
Qed.

Lemma clearHistory_working_store st :
  failing (localStorage st) = false ->
  history (clearHistory st) = [] /\ item (localStorage (clearHistory st)) = None.
Proof.
  intros H. unfold clearHistory, removeItem. rewrite H. auto.
Qed.

(** C8, at the failing input: the history holds "A.pdf" and the store
    throws.  [clearHistory] removes the stored item first and empties the
    history after it, inside one [try]: the removal throws, the failure
    is logged, and the history in memory still holds "A.pdf".
    [updateHistory], in the same state, does merge the new name. *)
Lemma C8_clear_skipped_when_store_throws :
  history (clearHistory (withHistoryA failingStorage)) = [js"A.pdf"]
  /\ history (clearHistory (withHistoryA failingStorage)) <> []
  /\ console (clearHistory (withHistoryA failingStorage))
     = [js"Failed to clear history from localStorage:"]
  /\ history (updateHistory [js"B.pdf"] (withHistoryA failingStorage))
     = [js"A.pdf"; js"B.pdf"].
Proof.
  split; [reflexivity|]. split; [discriminate|]. split; reflexivity.
Qed.

(* ================================================================= *)
(** ** C9: export *)

Lemma filter_nil_length {A} (p : A -> bool) l :
  filter p l = [] <-> (List.length (filter p l) =? 0) = true.
Proof.
  destruct (filter p l); simpl; split; congruence.
Qed.

(** C9: with no record in status success, [handleExportAll] offers
    nothing and changes nothing.  Otherwise it offers one text file,
    "pdf_extraction_results.txt", whose content is the blocks of the
    records in status success, in the order of the queue, joined by two
    empty lines; the block of a record is the line "START: name" between
    rows of "=", an empty line, the record's extracted text, an empty
    line, and the line "END: name" between rows of "=".  The export
    leaves the state as it is, so a second export gives the same file. *)
Theorem C9_export_all st :
  (filter isSuccess (fileQueue st) = [] -> handleExportAll st = (st, None))
  /\ (filter isSuccess (fileQueue st) <> [] ->
        snd (handleExportAll st)
        = Some (mkDownload (js"pdf_extraction_results.txt")
                  (js"text/plain;charset=utf-8")
                  (JS.join [10; 10; 10]%N
                     (map exportBlock (filter isSuccess (fileQueue st))))))
  /\ (forall x t, extractedText x = Some t ->
        exportBlock x
        = js"========== START: " ++ name (file x) ++ js" =========="
          ++ [10; 10]%N ++ t ++ [10; 10]%N
          ++ js"========== END: " ++ name (file x) ++ js" ==========")
  /\ fst (handleExportAll st) = st
  /\ handleExportAll (fst (handleExportAll st)) = handleExportAll st.
Proof.
  split; [|split; [|split; [|split]]].
  - intros H. unfold handleExportAll. now rewrite H.
  - intros H. unfold handleExportAll.
    destruct (filter isSuccess (fileQueue st)) as [|y ys]; [contradiction|].
    reflexivity.
  - intros x t H. unfold exportBlock. now rewrite H.
  - apply handleExportAll_state.
  - now rewrite handleExportAll_state.
Qed.

Lemma C9_export_all_witness :
  let st := runBatch brokenB
              (handleFiles (Some [fileA; fileB; mkFile (js"C.pdf") 5 6 pdfType 3])
                 (initialApp emptyStorage)) in
  handleExportAll (initialApp emptyStorage) = (initialApp emptyStorage, None)
  /\ option_map content (snd (handleExportAll st))
     = Some (js"========== START: A.pdf ==========" ++ [10; 10]%N
             ++ js"Hello" ++ [10; 10]%N ++ js"---" ++ [10; 10]%N
             ++ js"========== END: A.pdf ==========" ++ [10; 10; 10]%N
             ++ js"========== START: C.pdf ==========" ++ [10; 10]%N
             ++ js"Hello" ++ [10; 10]%N ++ js"---" ++ [10; 10]%N
             ++ js"========== END: C.pdf ==========").
Proof.
  intros st. split.
  - apply (proj1 (C9_export_all (initialApp emptyStorage))). reflexivity.
  - rewrite (proj1 (proj2 (C9_export_all st))); [reflexivity | discriminate].
Defined.

(* ================================================================= *)
(** ** C10: a document without pages *)

Lemma pageCalls_file w f k : forall i c,
  In c (pageCalls w f k i) -> callFile c = f.
Proof.
  induction k as [|k IH]; intros i c H; simpl in H; [contradiction|].
  destruct H as [<-|H]; [reflexivity|].
  destruct (getPage w f i); try contradiction.
  destruct H as [<-|H]; [reflexivity|].
  destruct (generateContent w f i); [contradiction|]. now apply (IH (S i)).
Qed.

Lemma processBatch_awaits w q :
  awaits (processBatch w q)
  = flat_map (fun fs => fileCalls w (file fs)) (filter isPending q).
Proof.
  unfold processBatch. destruct (existsb isPending q) eqn:E; cbn [negb].
  - destruct (forOf_run w q q) as [_ H].
    destruct (forOf w q q) as [l pq]. cbn [fst snd] in H.
    rewrite !awaits_app. cbn [awaits flat_map app]. rewrite H.
    destruct (0 <? List.length (filter isSuccess pq)); cbn; now rewrite app_nil_r.
  - simpl. symmetry.
    induction q as [|x q IH]; [reflexivity|].
    simpl in E. apply orb_false_iff in E. destruct E as [E1 E2].
    simpl. rewrite E1. now apply IH.
Qed.

(** No queue the loop publishes sets the progress of a record whose
    document has no pages. *)
Lemma forOf_no_progress w q0 r :
  NoDup (map id q0) -> In r q0 -> pageProgress r = None ->
  getDocument w (file r) = inr 0 ->
  let ok q := forall x, In x q -> id x = id r -> pageProgress x = None in
  ok (snd (forOf w q0 q0)) /\ Forall (logOk ok) (fst (forOf w q0 q0)).
Proof.
  intros ND Hr Pr D ok.
  pose (P := fun rest pq =>
    (forall fs, In fs rest -> id fs = id r -> getDocument w (file fs) = inr 0)
    /\ ok pq).
  assert (HP0 : P q0 q0).
  { split.
    - intros fs Hfs E. assert (fs = r) by (eapply NoDup_map_eq; eauto).
      now subst.
    - intros x Hx E. assert (x = r) by (eapply NoDup_map_eq; eauto).
      now subst. }
  destruct (@forOf_log P ok w) with (rest := q0) (pq := q0) as [[_ F1] F2];
    [| | assumption | split; assumption].
  - intros fs rest pq _ [H1 H2]. split; [|assumption].
    intros fs' Hin. apply H1. now right.
  - intros fs rest pq Pfs [H1 H2].
    assert (Keep : forall g q,
      (forall x, id (g x) = id x) ->
      (forall x, id x = id r -> id fs = id r -> pageProgress x = None ->
                 pageProgress (g x) = None) ->
      ok q -> ok (mapItem (id fs) g q)).
    { intros g q Hid Hg Hq y Hy.
      apply (@mapItem_pointwise
               (fun x => id x = id r -> pageProgress x = None)
               (fun x => id x = id r -> pageProgress x = None)
               (id fs) g q) with (y := y); auto.
      intros x Hx Ex Er. rewrite Hid in Er. apply Hg; auto. congruence. }
    destruct (@processFile_log ok ok w fs pq) as [J1 J2].
    + apply Keep; auto.
    + intros n i q Dn Hn Hq. apply Keep; auto.
      intros x Ex Efs _. exfalso. apply Hn.
      assert (D0 : getDocument w (file fs) = inr 0)
        by (apply H1; [now left | assumption]).
      congruence.
    + intros fullText q Hq. apply Keep; auto.
    + intros msg q Hq. apply Keep; auto.
    + split.
      * split; [|assumption]. intros fs' Hin. apply H1. now right.
      * revert J2. apply logOk_weaken. tauto.
Qed.

(** A document without pages, in a queue with distinct ids: for a
    pending record whose document reports zero pages, a run of [processBatch] awaits nothing on
    the record's file but the opening of the document (no page is
    fetched, no recognition call is made); the record ends with status
    success and the empty string as [extractedText]; and if it had no
    [pageProgress] at the start it has none in any state of the run. *)
Theorem C10_zero_pages w st r :
  NoDup (map id (fileQueue st)) ->
  In r (fileQueue st) ->
  status r = Pending ->
  pageProgress r = None ->
  getDocument w (file r) = inr 0 ->
  (forall c, In c (awaits (processBatch w (fileQueue st))) ->
             callFile c = file r ->
             c = CallGetDocument (file r) /\ isRecognition c = false)
  /\ (exists r',
        lookupId (id r) (fileQueue (runBatch w st)) = Some r'
        /\ status r' = Success
        /\ extractedText r' = Some []
        /\ pageProgress r' = None)
  /\ (forall st', In st' (statesOf (processBatch w (fileQueue st)) st) ->
        forall x, In x (fileQueue st') -> id x = id r -> pageProgress x = None).
Proof.
  intros ND Hin HP Pr D.
  assert (Hstates : forall st', In st' (statesOf (processBatch w (fileQueue st)) st) ->
            forall x, In x (fileQueue st') -> id x = id r -> pageProgress x = None).
  { intros st' H x Hx E. apply statesOf_queue in H. destruct H as [H|H].
    - rewrite H in Hx. assert (x = r) by (eapply NoDup_map_eq; eauto).
      now subst.
    - rewrite processBatch_snapshots in H.
      destruct (existsb isPending (fileQueue st)); [|contradiction].
      destruct (@forOf_no_progress w _ r ND Hin Pr D) as [_ HL].
      apply logOk_snapshots in HL.
      apply (proj1 (Forall_forall _ _) HL _ H x Hx E). }
  split; [|split].
  - intros c Hc Ef. rewrite processBatch_awaits in Hc.
    apply in_flat_map in Hc. destruct Hc as (fs & _ & Hc).
    unfold fileCalls in Hc. destruct Hc as [<-|Hc].
    + simpl in Ef. rewrite Ef. auto.
    + destruct (getDocument w (file fs)) as [e|n] eqn:Dn; [contradiction|].
      assert (Ec := pageCalls_file _ _ _ _ _ Hc).
      rewrite Ef in Ec. rewrite <- Ec, D in Dn. injection Dn as <-.
      contradiction.
  - assert (E : existsb isPending (fileQueue st) = true)
      by eauto using existsb_isPending.
    assert (L : lookupId (id r) (fileQueue (runBatch w st))
                = Some (fileItem w (file r) r)).
    { rewrite runBatch_record by assumption.
      apply isPending_true in HP. now rewrite HP. }
    exists (fileItem w (file r) r).
    assert (R : fileResult w (file r) = inr []).
    { unfold fileResult. now rewrite D. }
    split; [assumption|]. split; [|split].
    + now rewrite fileItem_status, R.
    + now rewrite fileItem_text, R.
    + unfold fileItem. rewrite D. simpl. assumption.
  - assumption.
Qed.

Lemma C10_zero_pages_witness :
  let st := handleFiles (Some [fileA; fileB]) (initialApp emptyStorage) in
  exists r',
    lookupId (fileId fileA) (fileQueue (runBatch noPages st)) = Some r'
    /\ status r' = Success
    /\ extractedText r' = Some []
    /\ pageProgress r' = None.
Proof.
  intros st.
  apply (proj1 (proj2 (@C10_zero_pages noPages st (newFileStatus fileA)
    ltac:(simpl; repeat constructor; simpl; intuition discriminate)
    ltac:(simpl; tauto) eq_refl eq_refl eq_refl))).
Defined.

(** C10, at the failing input: the queue holds the two records that
    [handleFiles] makes of two files with one name, timestamp and size
    selected together (C3); the document of the first file has zero
    pages, the document of the second has one page.  The pass of the
    first file makes no recognition call and leaves the empty text, but
    the pass of the second file rewrites both records by their common
    id: the record of the zero-page file ends with the text and the page
    progress of the other file. *)
Lemma C10_shared_id_zero_pages :
  let st := handleFiles (Some [fileA; fileA']) (initialApp emptyStorage) in
  getDocument zeroThenOne fileA = inr 0
  /\ map file (fileQueue (runBatch zeroThenOne st)) = [fileA; fileA']
  /\ map status (fileQueue (runBatch zeroThenOne st)) = [Success; Success]
  /\ map extractedText (fileQueue (runBatch zeroThenOne st))
     = [Some (js"Hello" ++ [10; 10; 45; 45; 45]%N);
        Some (js"Hello" ++ [10; 10; 45; 45; 45]%N)]
  /\ map pageProgress (fileQueue (runBatch zeroThenOne st))
     = [Some (1, 1); Some (1, 1)].
Proof.
  cbn zeta. repeat split; reflexivity.
Qed.

(* ================================================================= *)
(** * Further properties of the handlers *)

(** ** Adding and removing files *)

Lemma filter_none {A} (p : A -> bool) l :
  (forall x, In x l -> p x = false) -> filter p l = [].
Proof.
  induction l as [|x l IH]; intros H; [reflexivity|].
  simpl. rewrite (H x) by now left. apply IH. intros y Hy. apply H. now right.
Qed.

Lemma filter_all {A} (p : A -> bool) l :
  (forall x, In x l -> p x = true) -> filter p l = l.
Proof.
  induction l as [|x l IH]; intros H; [reflexivity|].
  simpl. rewrite (H x) by now left. f_equal. apply IH. intros y Hy. apply H. now right.
Qed.

Lemma find_skip {A} (p : A -> bool) l1 l2 :
  (forall x, In x l1 -> p x = false) -> find p (l1 ++ l2) = find p l2.
Proof.
  induction l1 as [|x l1 IH]; intros H; [reflexivity|].
  simpl. rewrite (H x) by now left. apply IH. intros y Hy. apply H. now right.
Qed.

(** X1: [handleFiles] keeps the queue as a prefix and appends only fresh
    pending records of files of the selection whose type is
    application/pdf and whose id the queue did not have; and every PDF of
    the selection has its id in the queue afterwards. *)
Theorem handleFiles_queues_pdfs files st :
  exists added,
    fileQueue (handleFiles (Some files) st) = fileQueue st ++ added
    /\ (forall x, In x added ->
          exists f, In f files /\ type f = pdfType /\ x = newFileStatus f
                    /\ ~ In (fileId f) (map id (fileQueue st)))
    /\ (forall f, In f files -> type f = pdfType ->
          In (fileId f) (map id (fileQueue (handleFiles (Some files) st)))).
Proof.
  unfold handleFiles. cbn [fileQueue]. eexists. split; [reflexivity|]. split.
  - intros x Hx. apply filter_In in Hx. destruct Hx as [Hx Hn].
    apply in_map_iff in Hx. destruct Hx as (f & <- & Hf).
    apply filter_In in Hf. destruct Hf as [Hf Ht].
    exists f. repeat split; auto.
    + now apply JS_eqb_eq.
    + apply negb_true_iff, Set_has_false in Hn. now rewrite newSet_In in Hn.
  - intros f Hf Ht. rewrite map_app. apply in_or_app.
    destruct (Set_has (newSet (map id (fileQueue st))) (fileId f)) eqn:E.
    + left. apply Set_has_In in E. now rewrite newSet_In in E.
    + right. apply in_map_iff. exists (newFileStatus f). split; [reflexivity|].
      apply filter_In. split.
      * apply in_map. apply filter_In. split; [assumption|].
        now apply JS_eqb_eq.
      * simpl. now rewrite E.
Qed.

(** X2: submitting a selection a second time changes nothing: every file
    of it is filtered out by the ids queued the first time. *)
Theorem handleFiles_idempotent files st :
  handleFiles files (handleFiles files st) = handleFiles files st.
Proof.
  destruct files as [files|]; [|reflexivity].
  unfold handleFiles at 1. cbv zeta.
  rewrite filter_none.
  - rewrite app_nil_r. reflexivity.
  - intros x Hx. apply negb_false_iff, Set_has_In, newSet_In.
    unfold handleFiles. cbn [fileQueue].
    rewrite map_app. apply in_or_app.
    destruct (Set_has (newSet (map id (fileQueue st))) (id x)) eqn:E.
    + left. apply Set_has_In in E. now rewrite newSet_In in E.
    + right. apply in_map. apply filter_In. split; [assumption|].
      now rewrite E.
Qed.

(** X3: a selection without any PDF, the empty one included, leaves the
    queue as it is and still sets the batch state to idle and closes the
    open result; the [null] list changes nothing at all. *)
Theorem handleFiles_without_pdf files st :
  (forall f, In f files -> type f <> pdfType) ->
  fileQueue (handleFiles (Some files) st) = fileQueue st
  /\ batchState (handleFiles (Some files) st) = BatchIdle
  /\ activeAccordion (handleFiles (Some files) st) = None
  /\ handleFiles None st = st.
Proof.
  intros H. unfold handleFiles. cbn [fileQueue batchState activeAccordion].
  rewrite (filter_none (fun f => JS.eqb (type f) pdfType)).
  - simpl. now rewrite app_nil_r.
  - intros f Hf. apply JS_eqb_neq. now apply H.
Qed.

Lemma handleFiles_without_pdf_witness :
  let st := runBatch onePage (handleFiles (Some [fileA]) (initialApp emptyStorage)) in
  let png := mkFile (js"scan.png") 7 8 (js"image/png") 9 in
  batchState st = BatchDone
  /\ fileQueue (handleFiles (Some [png]) st) = fileQueue st
  /\ batchState (handleFiles (Some [png]) st) = BatchIdle.
Proof.
  intros st png. split; [reflexivity|].
  destruct (@handleFiles_without_pdf [png] st) as (H1 & H2 & _).
  - intros f [<-|[]]. discriminate.
  - split; assumption.
Defined.

Lemma filter_Subseq {A} (p : A -> bool) l : Subseq (filter p l) l.
Proof.
  induction l as [|x l IH]; [constructor|].
  simpl. destruct (p x); now constructor.
Qed.

(** X4: [removeFile] removes every record with the id and nothing else:
    afterwards no record has the id; the queue is the old queue with
    records left out, the others in the order they had; every record
    with another id is kept, as many times as it was there; and removing
    an id that is not queued leaves the state as it is. *)
Theorem removeFile_removes_id i st :
  ~ In i (map id (fileQueue (removeFile i st)))
  /\ (forall j, j <> i ->
        filter (fun x => JS.eqb (id x) j) (fileQueue (removeFile i st))
        = filter (fun x => JS.eqb (id x) j) (fileQueue st))
  /\ (~ In i (map id (fileQueue st)) -> removeFile i st = st)
  /\ batchState (removeFile i st) = batchState st
  /\ history (removeFile i st) = history st
  /\ Subseq (fileQueue (removeFile i st)) (fileQueue st).
Proof.
  split; [|split; [|split; [|split; [|split]]]]; try reflexivity;
    try apply filter_Subseq.
  - intros H. simpl in H. apply in_map_iff in H. destruct H as (x & E & Hx).
    apply filter_In in Hx. destruct Hx as [_ Hx].
    apply negb_true_iff, JS_eqb_neq in Hx. contradiction.
  - intros j Hj. simpl. induction (fileQueue st) as [|x q IH]; [reflexivity|].
    simpl. destruct (JS.eqb (id x) i) eqn:E; simpl.
    + apply JS_eqb_eq in E.
      assert (N : JS.eqb (id x) j = false) by (apply JS_eqb_neq; congruence).
      now rewrite N.
    + destruct (JS.eqb (id x) j); [f_equal|]; exact IH.
  - intros H. unfold removeFile. rewrite filter_all.
    + now destruct st.
    + intros x Hx. apply negb_true_iff, JS_eqb_neq. intros E. apply H.
      rewrite <- E. now apply in_map.
Qed.

Lemma removeFile_removes_id_witness :
  let st := handleFiles (Some [fileA]) (initialApp emptyStorage) in
  removeFile (fileId fileB) st = st.
Proof.
  intros st.
  apply (proj1 (proj2 (proj2 (removeFile_removes_id (fileId fileB) st)))).
  simpl. intros [H|[]]. discriminate.
Defined.

(** X5: a file that is queued is not queued again, whatever the status
    of its record: adding it leaves the queue as it is, so a failed file
    is not retried by selecting it again.  Removing its record first and
    adding it then queues a fresh pending record. *)
Theorem requeue_needs_removal f st :
  type f = pdfType ->
  (In (fileId f) (map id (fileQueue st)) ->
     fileQueue (handleFiles (Some [f]) st) = fileQueue st)
  /\ lookupId (fileId f)
       (fileQueue (handleFiles (Some [f]) (removeFile (fileId f) st)))
     = Some (newFileStatus f).
Proof.
  intros Ht. assert (T : JS.eqb (type f) pdfType = true) by now apply JS_eqb_eq.
  split.
  - intros Hin. unfold handleFiles. cbn [fileQueue filter map].
    rewrite T. cbn [map filter id newFileStatus].
    assert (E : Set_has (newSet (map id (fileQueue st))) (fileId f) = true)
      by now apply Set_has_In, newSet_In.
    rewrite E. simpl. now rewrite app_nil_r.
  - destruct (removeFile_removes_id (fileId f) st) as [Hn _].
    unfold handleFiles. cbn [fileQueue filter map]. rewrite T.
    cbn [map filter id newFileStatus].
    assert (E : Set_has (newSet (map id (fileQueue (removeFile (fileId f) st))))
                  (fileId f) = false)
      by (apply Set_has_false; now rewrite newSet_In).
    rewrite E. cbn [negb].
    unfold lookupId. rewrite find_skip.
    + cbn [find id newFileStatus]. now rewrite JS_eqb_refl.
    + intros x Hx. apply JS_eqb_neq. intros Ex. apply Hn.
      apply (in_map id) in Hx. now rewrite Ex in Hx.
Qed.

Lemma requeue_needs_removal_witness :
  let st := runBatch brokenB (handleFiles (Some [fileA; fileB]) (initialApp emptyStorage)) in
  map status (fileQueue st) = [Success; Error]
  /\ fileQueue (handleFiles (Some [fileB]) st) = fileQueue st
  /\ lookupId (fileId fileB)
       (fileQueue (handleFiles (Some [fileB]) (removeFile (fileId fileB) st)))
     = Some (newFileStatus fileB).
Proof.
  intros st. split; [reflexivity|].
  destruct (@requeue_needs_removal fileB st eq_refl) as [H1 H2].
  split; [|assumption]. apply H1. simpl. tauto.
Defined.

(* ================================================================= *)
(** ** What a batch keeps *)

Lemma mapItem_files (fid : jsstring) (g : FileStatus -> FileStatus) q :
  (forall x, file (g x) = file x) -> map file (mapItem fid g q) = map file q.
Proof.
  intros Hg. unfold mapItem. rewrite map_map. apply map_ext. intros x.
  now destruct (JS.eqb (id x) fid).
Qed.

Lemma forOf_same_records w q0 :
  let ok q := map id q = map id q0 /\ map file q = map file q0 in
  ok (snd (forOf w q0 q0)) /\ Forall (logOk ok) (fst (forOf w q0 q0)).
Proof.
  intros ok.
  apply (@forOf_log (fun _ pq => ok pq) ok w); [auto | | split; reflexivity].
  intros fs rest pq _ Hpq.
  assert (Keep : forall g q,
    (forall x, id (g x) = id x) -> (forall x, file (g x) = file x) ->
    ok q -> ok (mapItem (id fs) g q)).
  { intros g q Hi Hf [E1 E2]. split.
    - now rewrite mapItem_ids.
    - now rewrite mapItem_files. }
  destruct (@processFile_log ok ok w fs pq) as [J1 J2]; auto.
  split; [assumption|]. revert J2. apply logOk_weaken. tauto.
Qed.

(** X6: a batch never adds, removes or reorders records, and never
    changes the id or the file of one: in every state a run passes
    through, the ids and the files of the queue are those at the start,
    in the same order. *)
Theorem batch_keeps_records w st st' :
  In st' (statesOf (processBatch w (fileQueue st)) st) ->
  map id (fileQueue st') = map id (fileQueue st)
  /\ map file (fileQueue st') = map file (fileQueue st).
Proof.
  intros H. apply statesOf_queue in H. destruct H as [->|H]; [auto|].
  rewrite processBatch_snapshots in H.
  destruct (existsb isPending (fileQueue st)); [|contradiction].
  destruct (forOf_same_records w (fileQueue st)) as [_ HL].
  apply logOk_snapshots in HL.
  exact (proj1 (Forall_forall _ _) HL _ H).
Qed.

Lemma batch_keeps_records_witness :
  let st := handleFiles (Some [fileA; fileB]) (initialApp emptyStorage) in
  map file (fileQueue (runBatch brokenB st)) = [fileA; fileB].
Proof.
  intros st.
  apply (proj2 (@batch_keeps_records brokenB st (runBatch brokenB st)
                  (statesOf_last _ _))).
Defined.

Lemma fileItem_terminal w f x : isTerminal (fileItem w f x).
Proof.
  unfold isTerminal. rewrite fileItem_status.
  destruct (fileResult w f); auto.
Qed.

Lemma loopItem_cases w rest : forall x,
  loopItem w rest x = x \/ isTerminal (loopItem w rest x).
Proof.
  induction rest as [|fs rest IH]; intros x; [now left|].
  change (loopItem w (fs :: rest) x) with (loopItem w rest (visitItem w x fs)).
  unfold visitItem.
  destruct (isPending fs && JS.eqb (id x) (id fs)); [|apply IH].
  right. destruct (IH (fileItem w (file fs) x)) as [E|T]; [|assumption].
  rewrite E. apply fileItem_terminal.
Qed.

Lemma loopItem_app w l1 l2 x :
  loopItem w (l1 ++ l2) x = loopItem w l2 (loopItem w l1 x).
Proof. unfold loopItem. apply fold_left_app. Qed.

Lemma loopItem_not_pending w q x :
  In x q -> isPending (loopItem w q x) = false.
Proof.
  intros Hin. apply in_split in Hin. destruct Hin as (l1 & l2 & ->).
  rewrite loopItem_app.
  change (loopItem w (x :: l2) (loopItem w l1 x))
    with (loopItem w l2 (visitItem w (loopItem w l1 x) x)).
  unfold visitItem. rewrite loopItem_id, JS_eqb_refl, andb_true_r.
  assert (N : forall y, isTerminal y -> isPending y = false).
  { intros y [E|E]; unfold isPending; now rewrite E. }
  destruct (isPending x) eqn:P.
  - destruct (loopItem_cases w l2 (fileItem w (file x) (loopItem w l1 x))) as [E|T].
    + rewrite E. apply N, fileItem_terminal.
    + now apply N.
  - destruct (loopItem_cases w l2 (loopItem w l1 x)) as [E|T]; [|now apply N].
    rewrite E. destruct (loopItem_cases w l1 x) as [E1|T1]; [|now apply N].
    now rewrite E1.
Qed.

(** X7: after a batch no record is pending, whatever the services
    answered and whatever the queue was: each pending record has been
    taken to success or error.  So a batch started right after a batch
    does nothing. *)
Theorem batch_leaves_nothing_pending w st :
  existsb isPending (fileQueue (runBatch w st)) = false
  /\ forall w', runBatch w' (runBatch w st) = runBatch w st.
Proof.
  assert (H : existsb isPending (fileQueue (runBatch w st)) = false).
  { destruct (existsb isPending (fileQueue st)) eqn:E.
    - destruct (runBatch_pending w st E) as (Hq & _ & _). rewrite Hq.
      unfold processedQueueOf.
      destruct (forOf_run w (fileQueue st) (fileQueue st)) as [R _]. rewrite R.
      apply not_true_is_false. intros C. apply existsb_exists in C.
      destruct C as (y & Hy & Py). apply in_map_iff in Hy.
      destruct Hy as (x & <- & Hx).
      now rewrite loopItem_not_pending in Py.
    - now rewrite runBatch_idle. }
  split; [assumption|]. intros w'. now apply runBatch_idle.
Qed.

(* ================================================================= *)
(** ** History and store *)

Lemma successNames_length (pq : list FileStatus) :
  (0 <? List.length (filter isSuccess pq)) = true <-> filter isSuccess pq <> [].
Proof.
  destruct (filter isSuccess pq) as [|y ys]; cbn.
  - split; [discriminate | intros H; now contradiction H].
  - split; [discriminate | reflexivity].
Qed.

(** The store after a whole run. *)
Lemma runBatch_store w st :
  existsb isPending (fileQueue st) = true ->
  let pq := processedQueueOf w (fileQueue st) in
  localStorage (runBatch w st)
  = if 0 <? List.length (filter isSuccess pq)
    then match setItem (newSet (history st
                                ++ map (fun f => name (file f)) (filter isSuccess pq)))
                 (localStorage st) with
         | inr ls' => ls'
         | inl _ => localStorage st
         end
    else localStorage st.
Proof.
  intros HP pq. unfold runBatch, processBatch. rewrite HP. cbn [negb].
  subst pq. unfold processedQueueOf.
  pose proof (@forOf_ends w (fileQueue st) (fileQueue st)) as HE.
  destruct (forOf w (fileQueue st) (fileQueue st)) as [l pq]. cbn [fst snd] in *.
  rewrite !runActions_app.
  set (st1 := runActions [SetBatchState BatchProcessing; SetActiveAccordion None] st).
  rewrite (HE st1) by reflexivity.
  destruct (0 <? List.length (filter isSuccess pq)).
  - unfold runActions.
    cbn [fold_left applyAction fileQueue batchState history localStorage].
    unfold updateHistory, setItem. cbn.
    destruct (failing (localStorage st)); reflexivity.
  - reflexivity.
Qed.

(** X8: after a batch that had a pending record, the history holds the
    names it held before and the names of the files of all records now
    in status success (those that succeeded in an earlier batch
    included), and nothing else.  If no record is in status success, the
    history and the store are as they were. *)
Theorem batch_history w st :
  existsb isPending (fileQueue st) = true ->
  (forall x, In x (history (runBatch w st)) <->
     In x (history st)
     \/ exists r, In r (fileQueue (runBatch w st))
                  /\ status r = Success /\ name (file r) = x)
  /\ (filter isSuccess (fileQueue (runBatch w st)) = [] ->
        history (runBatch w st) = history st
        /\ localStorage (runBatch w st) = localStorage st).
Proof.
  intros HP. destruct (runBatch_pending w st HP) as (Hq & _ & Hh).
  pose proof (runBatch_store w st HP) as Hs. cbv zeta in Hs.
  rewrite Hq. split.
  - intros x. rewrite Hh.
    destruct (0 <? List.length (filter isSuccess (processedQueueOf w (fileQueue st))))
      eqn:E.
    + rewrite newSet_In, in_app_iff, in_map_iff. split.
      * intros [H|(r & <- & Hr)]; [now left|]. right.
        apply filter_In in Hr. destruct Hr as [Hr Sr]. exists r.
        repeat split; auto. now apply isSuccess_true.
      * intros [H|(r & Hr & Sr & <-)]; [now left|]. right. exists r.
        split; [reflexivity|]. apply filter_In. split; [assumption|].
        now apply isSuccess_true.
    + split; [now left|]. intros [H|(r & Hr & Sr & _)]; [assumption|].
      exfalso.
      assert (N : filter isSuccess (processedQueueOf w (fileQueue st)) <> []).
      { intros C. assert (I : In r (filter isSuccess (processedQueueOf w (fileQueue st)))).
        { apply filter_In. split; [assumption | now apply isSuccess_true]. }
        rewrite C in I. contradiction. }
      apply successNames_length in N. congruence.
  - intros E. rewrite Hh, Hs, E. auto.
Qed.

Lemma batch_history_witness :
  let st := handleFiles (Some [fileA; fileB]) (initialApp emptyStorage) in
  In (js"A.pdf") (history (runBatch brokenB st))
  /\ ~ In (js"B.pdf") (history (runBatch brokenB st)).
Proof.
  intros st.
  destruct (@batch_history brokenB st eq_refl) as [H _]. split.
  - apply H. right. exists (fileItem brokenB fileA (newFileStatus fileA)).
    split; [now left|]. split; reflexivity.
  - intros C. apply H in C. destruct C as [[]|(r & Hr & Sr & Er)].
    destruct Hr as [<-|[<-|[]]]; discriminate.
Defined.

(** X10: with a store that works, what the history handlers leave in the
    store is what a new session starts with: the history after
    [updateHistory], the empty history after [clearHistory], and the
    history after a batch in which some record is in status success. *)
Theorem history_survives_reload st :
  failing (localStorage st) = false ->
  (forall ns,
      history (freshSession (localStorage (updateHistory ns st)))
      = history (updateHistory ns st))
  /\ history (freshSession (localStorage (clearHistory st))) = []
  /\ (forall w r,
        existsb isPending (fileQueue st) = true ->
        In r (fileQueue (runBatch w st)) -> status r = Success ->
        history (freshSession (localStorage (runBatch w st)))
        = history (runBatch w st)).
Proof.
  intros F. split; [|split].
  - intros ns. unfold updateHistory, setItem. rewrite F. reflexivity.
  - unfold clearHistory, removeItem. rewrite F. reflexivity.
  - intros w r HP Hr Sr.
    destruct (runBatch_pending w st HP) as (Hq & _ & Hh).
    rewrite (runBatch_store w st HP), Hh. rewrite Hq in Hr.
    assert (N : filter isSuccess (processedQueueOf w (fileQueue st)) <> []).
    { intros C.
      assert (I : In r (filter isSuccess (processedQueueOf w (fileQueue st)))).
      { apply filter_In. split; [assumption | now apply isSuccess_true]. }
      rewrite C in I. contradiction. }
    apply successNames_length in N. rewrite N.
    unfold setItem. rewrite F. reflexivity.
Qed.

Lemma history_survives_reload_witness :
  let st := runBatch onePage (handleFiles (Some [fileA]) (initialApp emptyStorage)) in
  history (freshSession (localStorage st)) = [js"A.pdf"]
  /\ history (freshSession (localStorage (clearHistory st))) = [].
Proof.
  intros st. split.
  - apply (proj2 (proj2 (@history_survives_reload
             (handleFiles (Some [fileA]) (initialApp emptyStorage)) eq_refl))
             onePage (fileItem onePage fileA (newFileStatus fileA)));
      [reflexivity | now left | reflexivity].
  - apply (proj1 (proj2 (@history_survives_reload st eq_refl))).
Defined.

Lemma exec_history_grows st c x :
  isClearHistory c = false -> In x (history st) -> In x (history (exec st c)).
Proof.
  intros NC Hx. destruct c as [files| i | w | | | ]; simpl; try assumption.
  - now destruct files.
  - destruct (existsb isPending (fileQueue st)) eqn:E.
    + destruct (runBatch_pending w st E) as (_ & _ & Hh). rewrite Hh.
      destruct (0 <? _); [|assumption].
      apply newSet_In, in_or_app. now left.
    + now rewrite runBatch_idle.
  - now rewrite handleExportAll_state.
  - discriminate.
Qed.

(** X11: a name in the history stays there through every sequence of
    commands that does not clear the history: adding and removing
    files, batches, resets and exports never drop an entry. *)
Theorem history_only_grows cs : forall st x,
  forallb (fun c => negb (isClearHistory c)) cs = true ->
  In x (history st) -> In x (history (fold_left exec cs st)).
Proof.
  induction cs as [|c cs IH]; intros st x H Hx; [assumption|].
  simpl in H. apply andb_true_iff in H. destruct H as [Hc Hcs].
  cbn [fold_left]. apply IH; [assumption|].
  apply exec_history_grows; [now apply negb_true_iff | assumption].
Qed.

Lemma history_only_grows_witness :
  let st := runBatch onePage (handleFiles (Some [fileA]) (initialApp emptyStorage)) in
  In (js"A.pdf")
    (history (fold_left exec
                [CmdReset; CmdAddFiles (Some [fileB]); CmdStartBatch brokenB;
                 CmdRemoveFile (fileId fileB)] st)).
Proof.
  intros st.
  apply (@history_only_grows
           [CmdReset; CmdAddFiles (Some [fileB]); CmdStartBatch brokenB;
            CmdRemoveFile (fileId fileB)] st (js"A.pdf") eq_refl).
  now left.
Defined.

(* ================================================================= *)
(** ** The calls of a batch *)

Lemma pageCalls_all_ok w f text k : forall i,
  (forall j, i <= j < i + k -> pageOk w f text j) ->
  pageCalls w f k i = flat_map (pageCallsOk f) (seq i k).
Proof.
  induction k as [|k IH]; intros i H; [reflexivity|].
  destruct (H i ltac:(lia)) as [G A].
  cbn [pageCalls seq flat_map]. rewrite G, A.
  unfold pageCallsOk at 1. cbn [app]. do 2 f_equal.
  apply IH. intros j Hj. apply H. lia.
Qed.

Lemma pageCalls_stop w f j k : forall i c,
  i <= j -> pageFailure w f j <> None ->
  In c (pageCalls w f k i) -> pageOf c <= j.
Proof.
  induction k as [|k IH]; intros i c Hij HF Hc; [contradiction|].
  cbn [pageCalls] in Hc. destruct Hc as [<-|Hc]; [assumption|].
  destruct (getPage w f i) eqn:G; try contradiction.
  destruct Hc as [<-|Hc]; [assumption|].
  destruct (generateContent w f i) eqn:A; [contradiction|].
  apply (IH (S i)); auto.
  assert (i <> j); [|lia].
  intros ->. apply HF. unfold pageFailure. now rewrite G, A.
Qed.

(** X12: when every page of every pending file goes through, a batch
    awaits, file after file in the order of the queue, the opening of the
    document and then, page after page from 1 to the number of pages,
    the page and one recognition call for it, and nothing else. *)
Theorem batch_calls_in_order w q (numPages : File -> nat)
    (text : File -> nat -> jsstring) :
  (forall fs, In fs q -> status fs = Pending ->
     getDocument w (file fs) = inr (numPages (file fs))
     /\ forall i, 1 <= i <= numPages (file fs) ->
                  pageOk w (file fs) (text (file fs)) i) ->
  awaits (processBatch w q)
  = flat_map (fun fs => CallGetDocument (file fs)
                        :: flat_map (pageCallsOk (file fs))
                             (seq 1 (numPages (file fs))))
      (filter isPending q).
Proof.
  intros H. rewrite processBatch_awaits.
  assert (HF : forall fs, In fs (filter isPending q) ->
            fileCalls w (file fs)
            = CallGetDocument (file fs)
              :: flat_map (pageCallsOk (file fs)) (seq 1 (numPages (file fs)))).
  { intros fs Hfs. apply filter_In in Hfs. destruct Hfs as [Hin P].
    apply isPending_true in P. destruct (H fs Hin P) as [D Hp].
    unfold fileCalls. rewrite D. f_equal.
    apply (@pageCalls_all_ok w (file fs) (text (file fs))).
    intros j Hj. apply Hp. lia. }
  induction (filter isPending q) as [|x xs IH]; [reflexivity|].
  cbn [flat_map]. rewrite HF by now left. f_equal.
  apply IH. intros fs Hfs. apply HF. now right.
Qed.

Lemma batch_calls_in_order_witness :
  awaits (processBatch helloWorld
            (fileQueue (handleFiles (Some [fileA; fileB]) (initialApp emptyStorage))))
  = [CallGetDocument fileA;
     CallGetPage fileA 1; CallGenerateContent fileA 1;
     CallGetPage fileA 2; CallGenerateContent fileA 2;
     CallGetDocument fileB;
     CallGetPage fileB 1; CallGenerateContent fileB 1;
     CallGetPage fileB 2; CallGenerateContent fileB 2].
Proof.
  apply (@batch_calls_in_order helloWorld
           (fileQueue (handleFiles (Some [fileA; fileB]) (initialApp emptyStorage)))
           (fun _ => 2)
           (fun _ i => if i =? 1 then js"Hello" else js"World")).
  intros fs _ _. split; [reflexivity|]. intros i _. split; reflexivity.
Defined.

(** X13: once a page of a file fails (the page cannot be fetched or
    rendered, the canvas has no context, or the recognition call is
    rejected), a batch requests no later page of that file: every call
    it awaits on the file is for that page or an earlier one. *)
Theorem batch_stops_file_at_failure w q f j :
  1 <= j -> pageFailure w f j <> None ->
  forall c, In c (awaits (processBatch w q)) -> callFile c = f -> pageOf c <= j.
Proof.
  intros Hj HF c Hc Ef. rewrite processBatch_awaits in Hc.
  apply in_flat_map in Hc. destruct Hc as (fs & _ & Hc).
  unfold fileCalls in Hc. destruct Hc as [<-|Hc]; [simpl; lia|].
  destruct (getDocument w (file fs)) as [e|n]; [contradiction|].
  assert (E := pageCalls_file _ _ _ _ _ Hc). rewrite Ef in E. rewrite <- E in Hc.
  now apply (@pageCalls_stop w f j n 1 c).
Qed.

Lemma batch_stops_file_at_failure_witness :
  let w := mkWorld (fun _ => inr 5) (fun _ _ => Rendered)
             (fun _ i => if i =? 2 then inl ThrownOther else inr (js"Hello")) in
  let q := fileQueue (handleFiles (Some [fileA]) (initialApp emptyStorage)) in
  awaits (processBatch w q)
  = [CallGetDocument fileA; CallGetPage fileA 1; CallGenerateContent fileA 1;
     CallGetPage fileA 2; CallGenerateContent fileA 2]
  /\ pageOf (CallGenerateContent fileA 2) <= 2.
Proof.
  intros w q. split; [reflexivity|].
  apply (@batch_stops_file_at_failure w q fileA 2);
    [lia | discriminate | simpl; tauto | reflexivity].
Defined.

(* ================================================================= *)
(** ** The text a batch stores *)

Lemma pageResult_all_ok w f text k : forall i fullText,
  (forall j, i <= j < i + k -> pageOk w f text j) ->
  pageResult w f k i fullText = inr (fullText ++ pagesText text i k).
Proof.
  induction k as [|k IH]; intros i fullText H.
  - simpl. now rewrite app_nil_r.
  - destruct (H i ltac:(lia)) as [G A].
    rewrite pageResult_step, G, A, IH by (intros j Hj; apply H; lia).
    unfold pagesText. cbn [seq flat_map]. now rewrite <- !app_assoc.
Qed.

(** X14: for a pending file whose [n] pages all go through, in a queue
    with distinct ids, a batch stores as [extractedText] the trimmed
    concatenation, page after page, of the trimmed text of the page
    followed by the separator; the status is success and the message the
    one of completion. *)
Theorem batch_stores_all_pages w st r n text :
  NoDup (map id (fileQueue st)) ->
  In r (fileQueue st) ->
  status r = Pending ->
  getDocument w (file r) = inr n ->
  (forall i, 1 <= i <= n -> pageOk w (file r) text i) ->
  exists r',
    lookupId (id r) (fileQueue (runBatch w st)) = Some r'
    /\ status r' = Success
    /\ message r' = doneMessage
    /\ extractedText r' = Some (JS.trim (pagesText text 1 n)).
Proof.
  intros ND Hin HP D Hp.
  assert (R : fileResult w (file r) = inr (pagesText text 1 n)).
  { unfold fileResult. rewrite D.
    rewrite (@pageResult_all_ok w (file r) text n 1 []); [reflexivity|].
    intros j Hj. apply Hp. lia. }
  exists (fileItem w (file r) r). split; [|split; [|split]].
  - rewrite runBatch_record; eauto using existsb_isPending.
    apply isPending_true in HP. now rewrite HP.
  - now rewrite fileItem_status, R.
  - now rewrite fileItem_message, R.
  - now rewrite fileItem_text, R.
Qed.

Lemma batch_stores_all_pages_witness :
  let w := mkWorld (fun _ => inr 3) (fun _ _ => Rendered)
             (fun _ i => inr ([32; 10]%N ++ JS.ofNat i ++ [9]%N)) in
  exists r',
    lookupId (fileId fileA)
      (fileQueue (runBatch w (handleFiles (Some [fileA]) (initialApp emptyStorage))))
    = Some r'
    /\ status r' = Success
    /\ message r' = doneMessage
    /\ extractedText r'
       = Some (js"1" ++ pageSeparator ++ js"2" ++ pageSeparator ++ js"3"
               ++ [10; 10; 45; 45; 45]%N).
Proof.
  intros w.
  apply (@batch_stores_all_pages w
           (handleFiles (Some [fileA]) (initialApp emptyStorage))
           (newFileStatus fileA) 3
           (fun i => [32; 10]%N ++ JS.ofNat i ++ [9]%N)).
  - simpl. repeat constructor. simpl. tauto.
  - simpl. now left.
  - reflexivity.
  - reflexivity.
  - intros i _. split; reflexivity.
Defined.

Lemma trimStart_cases s :
  JS.trimStart s = []
  \/ exists c r, JS.trimStart s = c :: r /\ JS.isWhiteSpace c = false.
Proof.
  induction s as [|c s IH]; [now left|].
  simpl. destruct (JS.isWhiteSpace c) eqn:E; [assumption|].
  right. now exists c, s.
Qed.

Lemma trimStart_app_nonws l c m :
  JS.isWhiteSpace c = false ->
  JS.trimStart (l ++ c :: m) = JS.trimStart l ++ c :: m.
Proof.
  intros Hc. induction l as [|x l IH]; simpl.
  - now rewrite Hc.
  - destruct (JS.isWhiteSpace x); [assumption | reflexivity].
Qed.

Lemma trimEnd_cons_nonws c m :
  JS.isWhiteSpace c = false -> JS.trimEnd (c :: m) = c :: JS.trimEnd m.
Proof.
  intros Hc. unfold JS.trimEnd. simpl rev at 2.
  rewrite trimStart_app_nonws by assumption.
  rewrite rev_app_distr. reflexivity.
Qed.

Lemma trimEnd_last s c r d :
  JS.trimEnd s = c :: r -> JS.isWhiteSpace (last (c :: r) d) = false.
Proof.
  unfold JS.trimEnd. intros H.
  destruct (trimStart_cases (rev s)) as [E|(x & t & E & Hx)].
  - rewrite E in H. discriminate.
  - rewrite E in H. simpl in H. rewrite <- H. now rewrite last_last.
Qed.

Lemma trim_trimmed s : trimmed (JS.trim s).
Proof.
  unfold JS.trim.
  destruct (trimStart_cases s) as [E|(c & r & E & Hc)]; rewrite E.
  - exact I.
  - rewrite trimEnd_cons_nonws by assumption. split; [assumption|].
    apply (@trimEnd_last (c :: r) c (JS.trimEnd r) c).
    now apply trimEnd_cons_nonws.
Qed.

Lemma forOf_textTrimmed w q0 :
  Forall textTrimmed q0 ->
  Forall textTrimmed (snd (forOf w q0 q0))
  /\ Forall (logOk (Forall textTrimmed)) (fst (forOf w q0 q0)).
Proof.
  intros H0.
  apply (@forOf_log (fun _ pq => Forall textTrimmed pq)
           (Forall textTrimmed) w); auto.
  intros fs rest pq _ Hpq.
  assert (Keep : forall g q,
    (forall x, textTrimmed x -> textTrimmed (g x)) ->
    Forall textTrimmed q -> Forall textTrimmed (mapItem (id fs) g q)).
  { intros g q Hg Hq. apply Forall_forall. intros y Hy.
    apply (@mapItem_pointwise textTrimmed textTrimmed (id fs) g q) with (y := y);
      [apply Forall_forall; assumption | intros x Hx _; now apply Hg
       | intros x Hx _; assumption | assumption]. }
  destruct (@processFile_log (Forall textTrimmed) (Forall textTrimmed) w fs pq)
    as [J1 J2]; auto.
  - intros fullText q. apply Keep. intros x _ s E.
    simpl in E. injection E as <-. apply trim_trimmed.
  - split; [assumption|]. revert J2. apply logOk_weaken. tauto.
Qed.

Lemma trace_textTrimmed st c st' :
  Forall textTrimmed (fileQueue st) ->
  In st' (trace st c) -> Forall textTrimmed (fileQueue st').
Proof.
  intros HQ H. destruct c as [files| i | w | | | ].
  - simpl in H. destruct H as [<-|[<-|[]]]; [assumption|].
    destruct files as [files|]; [|assumption].
    unfold handleFiles. cbn [fileQueue]. apply Forall_app. split; [assumption|].
    apply Forall_forall. intros x Hx. apply filter_In in Hx.
    destruct Hx as [Hx _]. apply in_map_iff in Hx.
    destruct Hx as (f & <- & _). intros s E. discriminate.
  - simpl in H. destruct H as [<-|[<-|[]]]; [assumption|].
    simpl. apply Forall_forall. intros x Hx. apply filter_In in Hx.
    now apply (proj1 (Forall_forall _ _) HQ).
  - cbn [trace] in H. apply statesOf_queue in H. destruct H as [->|H]; [assumption|].
    rewrite processBatch_snapshots in H.
    destruct (existsb isPending (fileQueue st)); [|contradiction].
    destruct (forOf_textTrimmed w HQ) as [_ HL].
    apply logOk_snapshots in HL.
    exact (proj1 (Forall_forall _ _) HL _ H).
  - simpl in H. destruct H as [<-|[<-|[]]]; [assumption|]. constructor.
  - cbn [trace exec] in H. rewrite handleExportAll_state in H.
    simpl in H. destruct H as [<-|[<-|[]]]; assumption.
  - simpl in H. destruct H as [<-|[<-|[]]]; [assumption|].
    unfold clearHistory. now destruct (removeItem (localStorage st)).
Qed.

(** X15: in every state reached by any sequence of commands, the states
    a batch passes through included, the text stored in a record has no
    white space at its start or at its end, whatever the recognition
    service returned and whatever ids the records have. *)
Theorem stored_text_is_trimmed ls cs st x s :
  In st (traceAll (initialApp ls) cs) ->
  In x (fileQueue st) ->
  extractedText x = Some s ->
  trimmed s.
Proof.
  intros Hst Hx E.
  assert (G : forall cs st0, Forall textTrimmed (fileQueue st0) ->
            forall st', In st' (traceAll st0 cs) ->
                        Forall textTrimmed (fileQueue st')).
  { clear. induction cs as [|c cs IH]; intros st0 H0 st' H; simpl in H.
    - destruct H as [<-|[]]. assumption.
    - apply in_app_or in H. destruct H as [H|H].
      + now apply (trace_textTrimmed st0 c).
      + apply (IH (exec st0 c)); [|assumption].
        apply (trace_textTrimmed st0 c); [assumption | apply trace_last]. }
  assert (H := G cs (initialApp ls) (Forall_nil _) st Hst).
  exact (proj1 (Forall_forall _ _) H x Hx s E).
Qed.

Lemma stored_text_is_trimmed_witness :
  let w := mkWorld (fun _ => inr 1) (fun _ _ => Rendered)
             (fun _ _ => inr ([10; 32; 160]%N ++ js"Hello" ++ [9; 13]%N)) in
  let cs := [CmdAddFiles (Some [fileA; fileA']); CmdStartBatch w] in
  let st := fold_left exec cs (initialApp emptyStorage) in
  let x := fileItem w fileA' (fileItem w fileA (newFileStatus fileA)) in
  In x (fileQueue st)
  /\ extractedText x = Some (js"Hello" ++ [10; 10; 45; 45; 45]%N)
  /\ trimmed (js"Hello" ++ [10; 10; 45; 45; 45]%N).
Proof.
  intros w cs st x.
  assert (Hx : In x (fileQueue st)) by (now left).
  split; [assumption|]. split; [reflexivity|].
  apply (@stored_text_is_trimmed emptyStorage cs st x
           (js"Hello" ++ [10; 10; 45; 45; 45]%N));
    [apply traceAll_last | assumption | reflexivity].
Defined.

Lemma pageResult_ends_with_separator w f k : forall i fullText t,
  pageResult w f (S k) i fullText = inr t ->
  exists y, t = y ++ pageSeparator.
Proof.
  induction k as [|k IH]; intros i fullText t H; rewrite pageResult_step in H;
    destruct (getPage w f i); try discriminate;
    destruct (generateContent w f i) as [|text]; try discriminate.
  - simpl in H. injection H as <-. exists (fullText ++ JS.trim text).
    now rewrite <- app_assoc.
  - now apply IH in H.
Qed.

Lemma trim_separator_tail y :
  exists z, JS.trim (y ++ pageSeparator) = z ++ [45; 45; 45]%N.
Proof.
  exists (JS.trimStart (y ++ [10; 10]%N)).
  unfold JS.trim, pageSeparator.
  change (y ++ [10; 10; 45; 45; 45; 10; 10]%N)
    with (y ++ [10; 10]%N ++ 45%N :: [45; 45; 10; 10]%N).
  rewrite app_assoc, trimStart_app_nonws by reflexivity.
  unfold JS.trimEnd. rewrite rev_app_distr. cbn [rev app].
  change (JS.trimStart (10 :: 10 :: 45 :: 45 :: 45 :: rev (JS.trimStart (y ++ [10; 10]))))%N
    with (45 :: 45 :: 45 :: rev (JS.trimStart (y ++ [10; 10])))%N.
  cbn [rev]. rewrite rev_involutive, <- !app_assoc. reflexivity.
Qed.

(** X16: in a queue with distinct ids, the text a batch stores for a
    pending file with at least one page, all of whose pages go through,
    is never empty: it ends with the three dashes of the separator that
    follows the last page. *)
Theorem batch_text_ends_with_dashes w st r n t :
  NoDup (map id (fileQueue st)) ->
  In r (fileQueue st) ->
  status r = Pending ->
  getDocument w (file r) = inr n -> 0 < n ->
  fileResult w (file r) = inr t ->
  exists r' body,
    lookupId (id r) (fileQueue (runBatch w st)) = Some r'
    /\ extractedText r' = Some (body ++ js"---").
Proof.
  intros ND Hin HP D Hn R.
  assert (Hy : exists y, t = y ++ pageSeparator).
  { unfold fileResult in R. rewrite D in R. destruct n as [|k]; [lia|].
    now apply pageResult_ends_with_separator in R. }
  destruct Hy as [y ->]. destruct (trim_separator_tail y) as [z Hz].
  exists (fileItem w (file r) r), z. split.
  - rewrite runBatch_record; eauto using existsb_isPending.
    apply isPending_true in HP. now rewrite HP.
  - rewrite fileItem_text, R, Hz. reflexivity.
Qed.

Lemma batch_text_ends_with_dashes_witness :
  let w := mkWorld (fun _ => inr 1) (fun _ _ => Rendered) (fun _ _ => inr []) in
  exists r' body,
    lookupId (fileId fileA)
      (fileQueue (runBatch w (handleFiles (Some [fileA]) (initialApp emptyStorage))))
    = Some r'
    /\ extractedText r' = Some (body ++ js"---").
Proof.
  intros w.
  apply (@batch_text_ends_with_dashes w
           (handleFiles (Some [fileA]) (initialApp emptyStorage))
           (newFileStatus fileA) 1 pageSeparator).
  - simpl. repeat constructor. simpl. tauto.
  - simpl. now left.
  - reflexivity.
  - reflexivity.
  - lia.
  - reflexivity.
Defined.

(* ================================================================= *)
(** ** How a failure is reported *)

Lemma pageLoop_fails_at w f n text j msg k : forall i fullText x,
  i <= j -> j < i + k ->
  (forall p, i <= p < j -> pageOk w f text p) ->
  pageFailure w f j = Some msg ->
  (exists e, pageResult w f k i fullText = inl e /\ errorMessageOf e = msg)
  /\ pageItem w f n k i x = markPage j n (pageItem w f n (j - i) i x).
Proof.
  induction k as [|k IH]; intros i fullText x Hij Hjk Hok HF; [lia|].
  rewrite pageResult_step, pageItem_step.
  destruct (Nat.eq_dec i j) as [->|Hne].
  - rewrite Nat.sub_diag. cbn [pageItem]. unfold pageFailure in HF.
    destruct (getPage w f j) as [e| |].
    + injection HF as <-. split; [now exists e | reflexivity].
    + injection HF as <-. split; [now eexists | reflexivity].
    + destruct (generateContent w f j) as [e|t]; [|discriminate].
      injection HF as <-. split; [now eexists | reflexivity].
  - destruct (Hok i ltac:(lia)) as [G A]. rewrite G, A.
    destruct (IH (S i) (fullText ++ JS.trim (text i) ++ pageSeparator)
                (markPage i n x)) as [I1 I2]; auto; try lia.
    { intros p Hp. apply Hok. lia. }
    split; [assumption|]. rewrite I2.
    replace (j - i) with (S (j - S i)) by lia.
    rewrite pageItem_step, G, A. reflexivity.
Qed.

(** X17: in a queue with distinct ids, when the pages before page [j]
    of a pending file go through
    and page [j] fails, the record ends with status error, with the page
    progress [(j, n)] of the failing page, without a text, and with a
    message that depends on where the page failed: the message of the
    error thrown when the page could not be fetched or rendered, a fixed
    message when the canvas gave no context, and one fixed message for
    every failure of the recognition call, whatever was thrown. *)
Theorem batch_reports_page_failure w st r n text j msg :
  NoDup (map id (fileQueue st)) ->
  In r (fileQueue st) ->
  status r = Pending ->
  getDocument w (file r) = inr n ->
  1 <= j <= n ->
  (forall p, 1 <= p < j -> pageOk w (file r) text p) ->
  pageFailure w (file r) j = Some msg ->
  exists r',
    lookupId (id r) (fileQueue (runBatch w st)) = Some r'
    /\ status r' = Error
    /\ message r' = msg
    /\ pageProgress r' = Some (j, n)
    /\ extractedText r' = extractedText r.
Proof.
  intros ND Hin HP D Hj Hok HF.
  destruct (@pageLoop_fails_at w (file r) n text j msg n 1 [] (markProcessing r))
    as [(e & R & Em) Hitem]; auto; try lia.
  assert (FR : fileResult w (file r) = inl e).
  { unfold fileResult. now rewrite D. }
  exists (fileItem w (file r) r). split; [|split; [|split; [|split]]].
  - rewrite runBatch_record; eauto using existsb_isPending.
    apply isPending_true in HP. now rewrite HP.
  - now rewrite fileItem_status, FR.
  - now rewrite fileItem_message, FR.
  - unfold fileItem. rewrite D, R. cbn [markError pageProgress].
    rewrite Hitem. reflexivity.
  - now rewrite fileItem_text, FR.
Qed.

Lemma batch_reports_page_failure_witness :
  let w := mkWorld (fun _ => inr 5) (fun _ _ => Rendered)
             (fun _ i => if i =? 2
                         then inl (ThrownError (js"429 quota exceeded"))
                         else inr (js"Hello")) in
  exists r',
    lookupId (fileId fileA)
      (fileQueue (runBatch w (handleFiles (Some [fileA]) (initialApp emptyStorage))))
    = Some r'
    /\ status r' = Error
    /\ message r' = apiErrorMessage
    /\ pageProgress r' = Some (2, 5)
    /\ extractedText r' = None.
Proof.
  intros w.
  apply (@batch_reports_page_failure w
           (handleFiles (Some [fileA]) (initialApp emptyStorage))
           (newFileStatus fileA) 5 (fun _ => js"Hello") 2 apiErrorMessage).
  - simpl. repeat constructor. simpl. tauto.
  - simpl. now left.
  - reflexivity.
  - reflexivity.
  - lia.
  - intros p Hp. assert (p = 1) by lia. subst. split; reflexivity.
  - reflexivity.
Defined.

(** X18: in a queue with distinct ids, when the document of a pending
    file cannot be opened, a batch
    awaits nothing else on that file, and the record ends with status
    error and the message of the error thrown (a fixed message when what
    was thrown is not an error), its text and its page progress being
    what they were. *)
Theorem batch_reports_open_failure w st r e :
  NoDup (map id (fileQueue st)) ->
  In r (fileQueue st) ->
  status r = Pending ->
  getDocument w (file r) = inl e ->
  (forall c, In c (awaits (processBatch w (fileQueue st))) ->
             callFile c = file r -> c = CallGetDocument (file r))
  /\ exists r',
       lookupId (id r) (fileQueue (runBatch w st)) = Some r'
       /\ status r' = Error
       /\ message r' = errorMessageOf e
       /\ extractedText r' = extractedText r
       /\ pageProgress r' = pageProgress r.
Proof.
  intros ND Hin HP D. split.
  - intros c Hc Ef. rewrite processBatch_awaits in Hc.
    apply in_flat_map in Hc. destruct Hc as (fs & _ & Hc).
    unfold fileCalls in Hc. destruct Hc as [<-|Hc].
    + simpl in Ef. now rewrite Ef.
    + destruct (getDocument w (file fs)) as [e'|n] eqn:Dn; [contradiction|].
      assert (Ec := pageCalls_file _ _ _ _ _ Hc).
      rewrite Ef in Ec. rewrite <- Ec, D in Dn. discriminate.
  - assert (FR : fileResult w (file r) = inl e).
    { unfold fileResult. now rewrite D. }
    exists (fileItem w (file r) r). split; [|split; [|split; [|split]]].
    + rewrite runBatch_record; eauto using existsb_isPending.
      apply isPending_true in HP. now rewrite HP.
    + now rewrite fileItem_status, FR.
    + now rewrite fileItem_message, FR.
    + now rewrite fileItem_text, FR.
    + unfold fileItem. now rewrite D.
Qed.

Lemma batch_reports_open_failure_witness :
  let st := handleFiles (Some [fileA; fileB]) (initialApp emptyStorage) in
  exists r',
    lookupId (fileId fileB) (fileQueue (runBatch brokenB st)) = Some r'
    /\ status r' = Error
    /\ message r' = js"Invalid PDF structure."
    /\ extractedText r' = None
    /\ pageProgress r' = None.
Proof.
  intros st.
  apply (proj2 (@batch_reports_open_failure brokenB st (newFileStatus fileB)
    (ThrownError (js"Invalid PDF structure."))
    ltac:(simpl; repeat constructor; simpl; intuition discriminate)
    ltac:(simpl; tauto) eq_refl eq_refl)).
Defined.

(* ================================================================= *)
(** ** The states a batch passes through *)

(** The rule of the page loop again, for a property that the progress
    updates keep when the page is one of the document. *)
Lemma pageLoop_log_range (I : list FileStatus -> Prop) w fs n :
  (forall i q, 1 <= i <= n -> I q -> I (mapItem (id fs) (markPage i n) q)) ->
  forall k i fullText pq, 1 <= i -> i + k = S n -> I pq ->
    I (snd (fst (pageLoop w fs n k i fullText pq)))
    /\ Forall (logOk I) (fst (fst (pageLoop w fs n k i fullText pq))).
Proof.
  intros Hstep. induction k as [|k IH]; intros i fullText pq Hi Hk Hpq.
  - simpl. auto.
  - cbn [pageLoop]. unfold bind, updateItem, setFileQueue, await, throw, ret.
    cbv beta.
    assert (H1 : I (mapItem (id fs) (markPage i n) pq))
      by (apply Hstep; [lia | assumption]).
    destruct (getPage w (file fs) i); cbn.
    + split; [assumption | repeat constructor; assumption].
    + split; [assumption | repeat constructor; assumption].
    + destruct (generateContent w (file fs) i) as [e|text]; cbn.
      * split; [assumption | repeat constructor; assumption].
      * specialize (IH (S i) (fullText ++ JS.trim text ++ pageSeparator) _
                       ltac:(lia) ltac:(lia) H1).
        destruct (pageLoop w fs n k (S i) _ _) as [[l pq'] r]. cbn in *.
        destruct IH as [IH1 IH2]. split; [assumption|].
        repeat (constructor; [simpl; auto|]). assumption.
Qed.

Lemma processFile_log_range (I J : list FileStatus -> Prop) w fs pq :
  I (mapItem (id fs) markProcessing pq) ->
  (forall n i q, getDocument w (file fs) = inr n -> 1 <= i <= n ->
                 I q -> I (mapItem (id fs) (markPage i n) q)) ->
  (forall fullText q, I q -> J (mapItem (id fs) (markSuccess fullText) q)) ->
  (forall msg q, I q -> J (mapItem (id fs) (markError msg) q)) ->
  J (snd (processFile w fs pq))
  /\ Forall (logOk (fun q => I q \/ J q)) (fst (processFile w fs pq)).
Proof.
  intros H0 Hpage Hok Herr.
  unfold processFile, tryCatchFinally, tryBody, catchHandler.
  unfold bind, await, updateItem. cbv beta.
  destruct (getDocument w (file fs)) as [e|n] eqn:D.
  - cbn. split; [now apply Herr|].
    repeat (constructor; [simpl; auto|]). constructor.
  - assert (HL : I (snd (fst (pageLoop w fs n n 1 [] (mapItem (id fs) markProcessing pq))))
                 /\ Forall (logOk I)
                      (fst (fst (pageLoop w fs n n 1 [] (mapItem (id fs) markProcessing pq))))).
    { apply pageLoop_log_range; auto. }
    destruct (pageLoop w fs n n 1 [] (mapItem (id fs) markProcessing pq))
      as [[l pq1] r].
    cbn [fst snd] in HL. destruct HL as [HL1 HL2].
    assert (HL3 : Forall (logOk (fun q => I q \/ J q)) l)
      by (revert HL2; apply logOk_weaken; auto).
    destruct r as [e|fullText]; cbn.
    + split; [now apply Herr|].
      constructor; [simpl; auto|]. constructor; [simpl; auto|].
      apply Forall_app. split; [assumption|].
      constructor; [simpl; right; now apply Herr | constructor].
    + split; [now apply Hok|].
      constructor; [simpl; auto|]. constructor; [simpl; auto|].
      rewrite app_nil_r. apply Forall_app. split; [assumption|].
      constructor; [simpl; right; now apply Hok | constructor].
Qed.

Lemma forOf_progressInRange w q0 :
  Forall progressInRange q0 ->
  Forall progressInRange (snd (forOf w q0 q0))
  /\ Forall (logOk (Forall progressInRange)) (fst (forOf w q0 q0)).
Proof.
  intros H0.
  apply (@forOf_log (fun _ pq => Forall progressInRange pq)
           (Forall progressInRange) w); auto.
  intros fs rest pq _ Hpq.
  assert (Keep : forall g q,
    (forall x, progressInRange x -> progressInRange (g x)) ->
    Forall progressInRange q -> Forall progressInRange (mapItem (id fs) g q)).
  { intros g q Hg Hq. apply Forall_forall.
    apply (@mapItem_pointwise progressInRange progressInRange (id fs) g q); auto.
    apply Forall_forall. assumption. }
  destruct (@processFile_log_range (Forall progressInRange)
              (Forall progressInRange) w fs pq) as [J1 J2]; auto.
  - intros n i q _ Hi. apply Keep. intros x _ c t E.
    simpl in E. injection E as <- <-. assumption.
  - split; [assumption|]. revert J2. apply logOk_weaken. tauto.
Qed.

Lemma trace_progressInRange st c st' :
  Forall progressInRange (fileQueue st) ->
  In st' (trace st c) -> Forall progressInRange (fileQueue st').
Proof.
  intros HQ H. destruct c as [files| i | w | | | ].
  - simpl in H. destruct H as [<-|[<-|[]]]; [assumption|].
    destruct files as [files|]; [|assumption].
    unfold handleFiles. cbn [fileQueue]. apply Forall_app. split; [assumption|].
    apply Forall_forall. intros x Hx. apply filter_In in Hx.
    destruct Hx as [Hx _]. apply in_map_iff in Hx.
    destruct Hx as (f & <- & _). intros c t E. discriminate.
  - simpl in H. destruct H as [<-|[<-|[]]]; [assumption|].
    simpl. apply Forall_forall. intros x Hx. apply filter_In in Hx.
    now apply (proj1 (Forall_forall _ _) HQ).
  - cbn [trace] in H. apply statesOf_queue in H. destruct H as [->|H]; [assumption|].
    rewrite processBatch_snapshots in H.
    destruct (existsb isPending (fileQueue st)); [|contradiction].
    destruct (forOf_progressInRange w HQ) as [_ HL].
    apply logOk_snapshots in HL.
    exact (proj1 (Forall_forall _ _) HL _ H).
  - simpl in H. destruct H as [<-|[<-|[]]]; [assumption|]. constructor.
  - cbn [trace exec] in H. rewrite handleExportAll_state in H.
    simpl in H. destruct H as [<-|[<-|[]]]; assumption.
  - simpl in H. destruct H as [<-|[<-|[]]]; [assumption|].
    unfold clearHistory. now destruct (removeItem (localStorage st)).
Qed.

(** X19: in every state reached by any sequence of commands, the states
    a batch passes through included, a page progress [(current, total)]
    counts a page of the document: [1 <= current <= total]. *)
Theorem progress_counts_a_page ls cs st x c t :
  In st (traceAll (initialApp ls) cs) ->
  In x (fileQueue st) ->
  pageProgress x = Some (c, t) ->
  1 <= c <= t.
Proof.
  intros Hst Hx E.
  assert (G : forall cs st0, Forall progressInRange (fileQueue st0) ->
            forall st', In st' (traceAll st0 cs) ->
                        Forall progressInRange (fileQueue st')).
  { clear. induction cs as [|c cs IH]; intros st0 H0 st' H; simpl in H.
    - destruct H as [<-|[]]. assumption.
    - apply in_app_or in H. destruct H as [H|H].
      + now apply (trace_progressInRange st0 c).
      + apply (IH (exec st0 c)); [|assumption].
        apply (trace_progressInRange st0 c); [assumption | apply trace_last]. }
  assert (H := G cs (initialApp ls) (Forall_nil _) st Hst).
  exact (proj1 (Forall_forall _ _) H x Hx c t E).
Qed.

Lemma progress_counts_a_page_witness :
  let cs := [CmdAddFiles (Some [fileA; fileB]); CmdStartBatch helloWorld] in
  let st := fold_left exec cs (initialApp emptyStorage) in
  let x := fileItem helloWorld fileA (newFileStatus fileA) in
  In x (fileQueue st) /\ pageProgress x = Some (2, 2) /\ 1 <= 2 <= 2.
Proof.
  intros cs st x.
  assert (Hx : In x (fileQueue st)) by (now left).
  split; [assumption|]. split; [reflexivity|].
  apply (@progress_counts_a_page emptyStorage cs st x 2 2);
    [apply traceAll_last | assumption | reflexivity].
Defined.

Lemma forOf_one_processing w q0 :
  noProcessing q0 ->
  noProcessing (snd (forOf w q0 q0))
  /\ Forall (logOk (fun q => exists fid, processingOnly fid q)) (fst (forOf w q0 q0)).
Proof.
  intros H0.
  apply (@forOf_log (fun _ pq => noProcessing pq)
           (fun q => exists fid, processingOnly fid q) w); auto.
  intros fs rest pq _ Hpq.
  destruct (@processFile_log (processingOnly (id fs)) noProcessing w fs pq)
    as [J1 J2].
  - intros y Hy.
    apply (@mapItem_pointwise (fun x => status x <> Processing)
             (fun x => status x = Processing -> id x = id fs)
             (id fs) markProcessing pq) with (y := y);
      [exact Hpq | intros x _ E _; exact E
       | intros x Hx _ C; contradiction | exact Hy].
  - intros n i q _ _ Hq y Hy.
    apply (@mapItem_pointwise (fun x => status x = Processing -> id x = id fs)
             (fun x => status x = Processing -> id x = id fs)
             (id fs) (markPage i n) q) with (y := y);
      [exact Hq | intros x _ E _; exact E
       | intros x Hx _; exact Hx | exact Hy].
  - intros fullText q Hq y Hy.
    apply (@mapItem_pointwise (fun x => status x = Processing -> id x = id fs)
             (fun x => status x <> Processing)
             (id fs) (markSuccess fullText) q) with (y := y);
      [exact Hq | intros x _ _; discriminate
       | intros x Hx Hn C; apply Hn; now apply Hx | exact Hy].
  - intros msg q Hq y Hy.
    apply (@mapItem_pointwise (fun x => status x = Processing -> id x = id fs)
             (fun x => status x <> Processing)
             (id fs) (markError msg) q) with (y := y);
      [exact Hq | intros x _ _; discriminate
       | intros x Hx Hn C; apply Hn; now apply Hx | exact Hy].
  - split; [assumption|]. revert J2. apply logOk_weaken.
    intros q [Hq|Hq].
    + now exists (id fs).
    + exists []. intros x Hx C. now apply Hq in Hx.
Qed.

Lemma trace_one_processing st c :
  noProcessing (fileQueue st) ->
  (forall st', In st' (trace st c) ->
     exists fid, processingOnly fid (fileQueue st'))
  /\ noProcessing (fileQueue (exec st c)).
Proof.
  intros HQ.
  assert (Weak : forall q, noProcessing q -> exists fid, processingOnly fid q).
  { intros q Hq. exists []. intros x Hx C. now apply Hq in Hx. }
  assert (Two : forall st1,
    noProcessing (fileQueue st1) ->
    (forall st', In st' [st; st1] -> exists fid, processingOnly fid (fileQueue st'))
    /\ noProcessing (fileQueue st1)).
  { intros st1 H1. split; [|assumption].
    intros st' [<-|[<-|[]]]; now apply Weak. }
  destruct c as [files| i | w | | | ].
  - apply Two. destruct files as [files|]; [|assumption].
    unfold handleFiles. cbn [fileQueue]. intros x Hx.
    apply in_app_or in Hx. destruct Hx as [Hx|Hx]; [now apply HQ|].
    apply filter_In in Hx. destruct Hx as [Hx _]. apply in_map_iff in Hx.
    destruct Hx as (f & <- & _). discriminate.
  - apply Two. simpl. intros x Hx. apply filter_In in Hx. now apply HQ.
  - cbn [trace exec]. destruct (forOf_one_processing w HQ) as [F1 F2]. split.
    + intros st' H. apply statesOf_queue in H. destruct H as [->|H]; [now apply Weak|].
      rewrite processBatch_snapshots in H.
      destruct (existsb isPending (fileQueue st)); [|contradiction].
      apply logOk_snapshots in F2.
      exact (proj1 (Forall_forall _ _) F2 _ H).
    + destruct (existsb isPending (fileQueue st)) eqn:E.
      * destruct (runBatch_pending w st E) as (Hq & _ & _). now rewrite Hq.
      * now rewrite runBatch_idle.
  - apply Two. simpl. intros x [].
  - cbn [trace exec]. rewrite handleExportAll_state. now apply Two.
  - apply Two. simpl. unfold clearHistory.
    now destruct (removeItem (localStorage st)).
Qed.

(** X20: files are processed one at a time.  In every state reached from
    the initial state by commands whose selections have no two PDF files
    of one id, the states a batch passes through included, at most one
    record has status processing; and when a command is over, none has. *)
Theorem one_file_at_a_time ls cs :
  Forall distinctSelection cs ->
  (forall st x y, In st (traceAll (initialApp ls) cs) ->
     In x (fileQueue st) -> In y (fileQueue st) ->
     status x = Processing -> status y = Processing -> x = y)
  /\ noProcessing (fileQueue (fold_left exec cs (initialApp ls))).
Proof.
  intros HD.
  assert (G : forall cs st0, noProcessing (fileQueue st0) ->
            (forall st', In st' (traceAll st0 cs) ->
               exists fid, processingOnly fid (fileQueue st'))
            /\ noProcessing (fileQueue (fold_left exec cs st0))).
  { clear. induction cs as [|c cs IH]; intros st0 H0.
    - split; [|assumption]. intros st' [<-|[]]. exists [].
      intros x Hx C. now apply H0 in Hx.
    - destruct (trace_one_processing st0 c H0) as [T1 T2].
      destruct (IH (exec st0 c) T2) as [I1 I2]. split; [|assumption].
      intros st' H. simpl in H. apply in_app_or in H. destruct H; auto. }
  destruct (G cs (initialApp ls)) as [G1 G2]; [intros x []|].
  split; [|assumption].
  intros st x y Hst Hx Hy Sx Sy.
  destruct (G1 st Hst) as [fid Hf].
  assert (Q : queueInv (fileQueue st)).
  { apply (@traceAll_queueInv cs (initialApp ls)); auto. split; constructor. }
  destruct Q as [ND _].
  apply (NoDup_map_eq id (fileQueue st)); auto.
  rewrite (Hf x Hx Sx), (Hf y Hy Sy). reflexivity.
Qed.

Lemma one_file_at_a_time_witness :
  let cs := [CmdAddFiles (Some [fileA; fileB]); CmdStartBatch helloWorld] in
  noProcessing (fileQueue (fold_left exec cs (initialApp emptyStorage))).
Proof.
  intros cs.
  apply (proj2 (@one_file_at_a_time emptyStorage cs
                  ltac:(repeat constructor; simpl; intuition discriminate))).
Defined.

(* ================================================================= *)
(** ** Files added while a batch is suspended *)

Lemma AtAwaits_head c l s :
  AtAwaits l (Own (Await c) :: s) -> exists l', l = Await c :: l'.
Proof.
  intros H. inversion H; subst; eauto.
Qed.

Lemma AtAwaits_split l1 : forall l2 s,
  AtAwaits (l1 ++ l2) s ->
  exists s1 s2, s = s1 ++ s2 /\ AtAwaits l2 s2.
Proof.
  intros l2 s H. remember (l1 ++ l2) as l eqn:E. revert l1 l2 E.
  induction H as [|a l s H IH|c files l s H IH]; intros l1 l2 E.
  - symmetry in E. apply app_eq_nil in E. destruct E as [-> ->].
    exists [], []. split; [reflexivity | constructor].
  - destruct l1 as [|b l1]; simpl in E.
    + subst l2. exists [], (Own a :: s). split; [reflexivity|].
      now constructor.
    + injection E as <- ->. destruct (IH l1 l2 eq_refl) as (s1 & s2 & -> & H2).
      exists (Own a :: s1), s2. split; [reflexivity | assumption].
  - destruct (IH l1 l2 E) as (s1 & s2 & E' & H2).
    destruct s1 as [|x s1]; simpl in E'.
    + subst s2. exists [], (Own (Await c) :: AddFiles files :: s).
      split; [reflexivity|].
      destruct (AtAwaits_head H2) as [l' ->]. now constructor.
    + injection E' as <- ->.
      exists (Own (Await c) :: AddFiles files :: s1), s2.
      split; [reflexivity | assumption].
Qed.

Lemma AtAwaits_no_await l s :
  AtAwaits l s -> awaits l = [] -> s = map Own l.
Proof.
  induction 1 as [|a l s H IH|c files l s H IH]; intros E.
  - reflexivity.
  - change (a :: l) with ([a] ++ l) in E. rewrite awaits_app in E.
    apply app_eq_nil in E. destruct E as [_ E]. simpl. f_equal. now apply IH.
  - discriminate.
Qed.

Lemma forOf_none w rest pq :
  existsb isPending rest = false -> forOf w rest pq = ([], pq).
Proof.
  induction rest as [|fs rest IH]; intros E; [reflexivity|].
  simpl in E. apply orb_false_iff in E. destruct E as [E1 E2].
  cbn [forOf]. rewrite E1. cbn [negb]. now apply IH.
Qed.

(** When a record is pending, the last action of the loop publishes the
    local queue. *)
Lemma forOf_log_end w rest : forall pq,
  existsb isPending rest = true ->
  exists l, fst (forOf w rest pq) = l ++ [SetFileQueue (snd (forOf w rest pq))].
Proof.
  induction rest as [|fs rest IH]; intros pq E; [discriminate|].
  cbn [forOf]. destruct (isPending fs) eqn:P; cbn [negb].
  - destruct (processFile_run w fs pq) as (_ & _ & l1 & H1).
    destruct (processFile w fs pq) as [l pq1]. cbn [fst snd] in H1.
    destruct (existsb isPending rest) eqn:R.
    + destruct (IH pq1 eq_refl) as [l2 H2].
      destruct (forOf w rest pq1) as [l' pq2]. cbn [fst snd] in *.
      exists (l ++ l2). rewrite H2. now rewrite app_assoc.
    + rewrite (forOf_none w rest pq1 R). cbn [fst snd].
      exists l1. now rewrite app_nil_r.
  - simpl in E. rewrite P in E. now apply IH.
Qed.

Lemma runSchedule_app s1 s2 st :
  runSchedule (s1 ++ s2) st = runSchedule s2 (runSchedule s1 st).
Proof. apply fold_left_app. Qed.

Lemma runSchedule_own l st : runSchedule (map Own l) st = runActions l st.
Proof.
  revert st. induction l as [|a l IH]; intros st; [reflexivity|].
  simpl. apply IH.
Qed.

(** X21: a batch publishes its own copy of the queue.  If [handleFiles]
    runs while the batch is suspended at one of its awaits, whatever it
    queued is gone when the batch is over: the queue is the batch's
    processed copy of the array it captured, and the batch state is
    done. *)
Theorem files_added_mid_run_are_dropped w q s st :
  existsb isPending q = true ->
  AtAwaits (processBatch w q) s ->
  fileQueue (runSchedule s st) = processedQueueOf w q
  /\ batchState (runSchedule s st) = BatchDone.
Proof.
  intros HP HS. unfold processBatch in HS. rewrite HP in HS. cbn [negb] in HS.
  unfold processedQueueOf.
  destruct (forOf_log_end w q q HP) as [l' Hl].
  destruct (forOf w q q) as [l pq]. cbn [fst snd] in *. subst l.
  set (post := (if 0 <? List.length (filter isSuccess pq)
                then [UpdateHistory (map (fun f => name (file f)) (filter isSuccess pq))]
                else []) ++ [SetBatchState BatchDone]) in *.
  replace ([SetBatchState BatchProcessing; SetActiveAccordion None]
           ++ (l' ++ [SetFileQueue pq]) ++ post)
    with (([SetBatchState BatchProcessing; SetActiveAccordion None] ++ l')
          ++ (SetFileQueue pq :: post)) in HS
    by (rewrite <- !app_assoc; reflexivity).
  apply AtAwaits_split in HS. destruct HS as (s1 & s2 & -> & H2).
  apply AtAwaits_no_await in H2.
  - subst s2. rewrite runSchedule_app, runSchedule_own.
    set (st1 := runSchedule s1 st). subst post.
    destruct (0 <? List.length (filter isSuccess pq)).
    + unfold runActions. cbn [fold_left app applyAction fileQueue batchState].
      destruct (updateHistory_fields
                  (map (fun f => name (file f)) (filter isSuccess pq))
                  (withQueue pq st1)) as (F1 & _ & _).
      unfold withQueue in F1. rewrite F1. auto.
    + cbn. auto.
  - subst post. now destruct (0 <? List.length (filter isSuccess pq)).
Qed.

Lemma files_added_mid_run_are_dropped_witness :
  let st := handleFiles (Some [fileA]) (initialApp emptyStorage) in
  let s := [Own (SetBatchState BatchProcessing); Own (SetActiveAccordion None);
            Own (SetFileQueue [markProcessing (newFileStatus fileA)]);
            Own (Await (CallGetDocument fileA)); AddFiles (Some [fileB]);
            Own (SetFileQueue [fileItem noPages fileA (newFileStatus fileA)]);
            Own (UpdateHistory [js"A.pdf"]); Own (SetBatchState BatchDone)] in
  map file (fileQueue (runSchedule s st)) = [fileA]
  /\ batchState (runSchedule s st) = BatchDone.
Proof.
  intros st s.
  destruct (@files_added_mid_run_are_dropped noPages (fileQueue st) s st eq_refl)
    as [H1 H2].
  - unfold s. vm_compute. do 3 apply AtAwaits_own. apply AtAwaits_add.
    repeat apply AtAwaits_own. apply AtAwaits_nil.
  - split; [|assumption]. rewrite H1. reflexivity.
Defined.

(* ================================================================= *)
(** ** Records a batch leaves alone *)

(** X22: a record whose id no pending record of the queue has is left
    exactly as it is by a batch, at the place where it was: a record in
    status success or error is not processed again. *)
Theorem batch_leaves_finished_records w st i r :
  nth_error (fileQueue st) i = Some r ->
  (forall fs, In fs (fileQueue st) -> status fs = Pending -> id fs <> id r) ->
  nth_error (fileQueue (runBatch w st)) i = Some r.
Proof.
  intros Hn Hids.
  destruct (existsb isPending (fileQueue st)) eqn:E.
  - destruct (runBatch_pending w st E) as (Hq & _ & _). rewrite Hq.
    unfold processedQueueOf.
    destruct (forOf_run w (fileQueue st) (fileQueue st)) as [R _]. rewrite R.
    rewrite nth_error_map, Hn. cbn [option_map]. f_equal.
    apply loopItem_untouched. intros fs Hfs P. apply Hids; [assumption|].
    now apply isPending_true.
  - now rewrite runBatch_idle.
Qed.

Lemma batch_leaves_finished_records_witness :
  let st := handleFiles (Some [fileB])
              (runBatch helloWorld (handleFiles (Some [fileA]) (initialApp emptyStorage))) in
  let done := fileItem helloWorld fileA (newFileStatus fileA) in
  status done = Success
  /\ nth_error (fileQueue (runBatch brokenB st)) 0 = Some done.
Proof.
  intros st done. split; [reflexivity|].
  apply (@batch_leaves_finished_records brokenB st 0 done); [reflexivity|].
  intros fs [<-|[<-|[]]]; discriminate.
Defined.
